(** * Near-Earth objects: linking, lookup and query

    A shallow embedding of [models.py], [filters.py] and [database.py].

    A Python string is the sequence of its characters, a [string] of
    [ascii].  Python objects with identity (the [NearEarthObject]s and the
    [CloseApproach]es handed to the database) live in two stores, the
    collections [_neos] and [_approaches] themselves: an object is referred
    to by its position in its collection, and an attribute assignment
    ([cad.neo = neo], [neo.approaches.extend(...)]) is an update of the store
    at that position.  Exceptions are values of [exn], carried by [result].
    A generator is the finite trace of running it to the end: the values it
    yields and the exception that stops it, if any. *)

From Stdlib Require Import ZArith Ascii String Floats.PrimFloat.
From Stdlib Require Import Floats.SpecFloat Floats.FloatOps Floats.FloatAxioms.
From stdpp Require Import base option list strings.


(** ** Python runtime: exceptions, values, comparison operators *)

Inductive exn : Type :=
| TypeError
| AttributeError
| KeyError
| ValueError.

Inductive result (A : Type) : Type :=
| Ok (a : A)
| Raise (e : exn).
Arguments Ok {A} a.
Arguments Raise {A} e.

(** Sequencing: an exception raised by [m] is raised by the whole. *)
Definition bind {A B : Type} (m : result A) (f : A -> result B) : result B :=
  match m with
  | Ok a => f a
  | Raise e => Raise e
  end.

Notation "x <- m ; k" := (bind m (fun x => k))
  (at level 20, m at level 100, k at level 200, only parsing).

(** [datetime.date] and [datetime.datetime] of the [datetime] module. *)
Module datetime.

Record date : Type := mkdate { d_year : Z; d_month : Z; d_day : Z }.

Record datetime : Type := mkdatetime {
  year : Z; month : Z; day : Z;
  hour : Z; minute : Z; second : Z; microsecond : Z
}.

(** The method [datetime.date()]: the calendar date of a date-time. *)
Definition date_of (t : datetime) : date :=
  mkdate (year t) (month t) (day t).

End datetime.

(** Dates and date-times compare as the tuples of their fields. *)
Definition date_key (d : datetime.date) : list Z :=
  [datetime.d_year d; datetime.d_month d; datetime.d_day d].
Definition datetime_key (t : datetime.datetime) : list Z :=
  [datetime.year t; datetime.month t; datetime.day t; datetime.hour t;
   datetime.minute t; datetime.second t; datetime.microsecond t].

Fixpoint tuple_eqb (a b : list Z) : bool :=
  match a, b with
  | [], [] => true
  | x :: a', y :: b' => (x =? y)%Z && tuple_eqb a' b'
  | _, _ => false
  end.

Fixpoint tuple_leb (a b : list Z) : bool :=
  match a, b with
  | [], _ => true
  | _ :: _, [] => false
  | x :: a', y :: b' => (x <? y)%Z || ((x =? y)%Z && tuple_leb a' b')
  end.

(** The values that reach a comparison in [valid_attribute]. *)
Inductive pyobj : Type :=
| PBool (b : bool)
| PFloat (f : float)
| PDate (d : datetime.date)
| PDatetime (t : datetime.datetime).

(** [bool] is a numeric type: it compares with floats as 0.0 and 1.0. *)
Definition as_number (o : pyobj) : option float :=
  match o with
  | PBool true => Some 1%float
  | PBool false => Some 0%float
  | PFloat f => Some f
  | _ => None
  end.

Module operator.

(** [operator.eq(a, b)] is [a == b]: never raises, unrelated types are
    unequal (a [date] is not equal to a [datetime]). *)
Definition eq (a b : pyobj) : result bool :=
  match as_number a, as_number b with
  | Some x, Some y => Ok (PrimFloat.eqb x y)
  | _, _ =>
      match a, b with
      | PDate x, PDate y => Ok (tuple_eqb (date_key x) (date_key y))
      | PDatetime x, PDatetime y =>
          Ok (tuple_eqb (datetime_key x) (datetime_key y))
      | _, _ => Ok false
      end
  end.

(** [operator.le(a, b)] is [a <= b]: a [TypeError] between unrelated
    types. *)
Definition le (a b : pyobj) : result bool :=
  match as_number a, as_number b with
  | Some x, Some y => Ok (PrimFloat.leb x y)
  | _, _ =>
      match a, b with
      | PDate x, PDate y => Ok (tuple_leb (date_key x) (date_key y))
      | PDatetime x, PDatetime y =>
          Ok (tuple_leb (datetime_key x) (datetime_key y))
      | _, _ => Raise TypeError
      end
  end.

(** [operator.ge(a, b)] is [a >= b]. *)
Definition ge (a b : pyobj) : result bool :=
  match as_number a, as_number b with
  | Some x, Some y => Ok (PrimFloat.leb y x)
  | _, _ =>
      match a, b with
      | PDate x, PDate y => Ok (tuple_leb (date_key y) (date_key x))
      | PDatetime x, PDatetime y =>
          Ok (tuple_leb (datetime_key y) (datetime_key x))
      | _, _ => Raise TypeError
      end
  end.

End operator.

(** A dict, a list of close approaches, or a near-Earth object: what the
    nodes of the two tries of the database hold.  A dict is keyed by the
    characters of a designation and by the end marker ['$'], in insertion
    order. *)
#[warnings="-register-all"]
Inductive pyval : Type :=
| Dict (items : list (ascii * pyval))
| CadList (cads : list nat)
| NeoRef (neo : nat).

Fixpoint dict_get (k : ascii) (items : list (ascii * pyval)) : option pyval :=
  match items with
  | [] => None
  | (k', v) :: rest => if Ascii.eqb k k' then Some v else dict_get k rest
  end.

Fixpoint dict_set (k : ascii) (v : pyval) (items : list (ascii * pyval))
  : list (ascii * pyval) :=
  match items with
  | [] => [(k, v)]
  | (k', v') :: rest =>
      if Ascii.eqb k k' then (k', v) :: rest else (k', v') :: dict_set k v rest
  end.

(** [ch in node], for a one-character string [ch].  A list of close
    approaches holds no string; a [NearEarthObject] is not iterable. *)
Definition py_contains (ch : ascii) (node : pyval) : result bool :=
  match node with
  | Dict items => Ok (if dict_get ch items is Some _ then true else false)
  | CadList _ => Ok false
  | NeoRef _ => Raise TypeError
  end.

(** [node[ch]] *)
Definition py_getitem (node : pyval) (ch : ascii) : result pyval :=
  match node with
  | Dict items =>
      match dict_get ch items with
      | Some v => Ok v
      | None => Raise KeyError
      end
  | CadList _ => Raise TypeError
  | NeoRef _ => Raise TypeError
  end.

(** [node[ch] = v] *)
Definition py_setitem (node : pyval) (ch : ascii) (v : pyval) : result pyval :=
  match node with
  | Dict items => Ok (Dict (dict_set ch v items))
  | CadList _ => Raise TypeError
  | NeoRef _ => Raise TypeError
  end.

(** The end marker of both tries. *)
Definition dollar : ascii := "$"%char.

(** [x != ''] for [x] a string or [None]. *)
Definition ne_empty (x : option string) : bool :=
  match x with
  | Some s => negb (String.eqb s "")
  | None => true
  end.

(** A generator run to its end: the values it yields, in order, and the
    exception that stops it, if one does. *)
Record stream (A : Type) : Type := mkstream {
  yielded : list A;
  raised : option exn
}.
Arguments mkstream {A} yielded raised.
Arguments yielded {A} s.
Arguments raised {A} s.

(** [sys.maxsize] of a 64-bit CPython. *)
Definition sys_maxsize : Z := (2 ^ 63 - 1)%Z.

(** [itertools.islice(iterator, stop)]: [stop] must be an integer between 0
    and [sys.maxsize]; the iterator is asked for no more than [stop] values,
    so an exception it would raise later is not reached. *)
Definition islice {A : Type} (iterator : stream A) (stop : Z)
  : result (stream A) :=
  if (0 <=? stop)%Z && (stop <=? sys_maxsize)%Z then
    if Z.to_nat stop <=? length (yielded iterator)
    then Ok (mkstream (take (Z.to_nat stop) (yielded iterator)) None)
    else Ok iterator
  else Raise ValueError.

(** ** models.py *)

Module models.

(** [approaches] holds references into the collection of close approaches,
    [neo] a reference into the collection of near-Earth objects. *)
Record NearEarthObject : Type := mkNearEarthObject {
  designation : string;
  name : option string;
  diameter : float;
  hazardous : bool;
  approaches : list nat
}.

Record CloseApproach : Type := mkCloseApproach {
  _designation : string;
  time : datetime.datetime;
  distance : float;
  velocity : float;
  neo : option nat
}.

Section Constructors.

(** The built-in [float] applied to a string, and [cd_to_datetime] of the
    [helpers] module: both parse a string or raise. *)
Variable float_of_str : string -> result float.
Variable cd_to_datetime : string -> result datetime.datetime.

(** [NearEarthObject.__init__].  The [approaches] argument is ignored by
    the source; [hazardous] arrives as a string from the reader, and the
    default [False] behaves as any string other than ["Y"]. *)
Definition NearEarthObject__init__ (designation : string)
    (name : option string) (diameter : string) (hazardous : string)
  : result NearEarthObject :=
  let name' := if ne_empty name then name else None in
  diameter' <- (if negb (String.eqb diameter "")
                then float_of_str diameter else Ok nan);
  let hazardous' := if String.eqb hazardous "Y" then true else false in
  Ok (mkNearEarthObject designation name' diameter' hazardous' []).

(** [CloseApproach.__init__] *)
Definition CloseApproach__init__ (_designation : string) (time : string)
    (distance : string) (velocity : string) (neo : option nat)
  : result CloseApproach :=
  time' <- cd_to_datetime time;
  distance' <- float_of_str distance;
  velocity' <- float_of_str velocity;
  Ok (mkCloseApproach _designation time' distance' velocity' neo).

End Constructors.

(** [neo.approaches.extend(cads)] *)
Definition approaches_extend (cads : list nat) (n : NearEarthObject)
  : NearEarthObject :=
  mkNearEarthObject (designation n) (name n) (diameter n) (hazardous n)
    (approaches n ++ cads).

(** [cad.neo = neo] *)
Definition set_neo (j : nat) (c : CloseApproach) : CloseApproach :=
  mkCloseApproach (_designation c) (time c) (distance c) (velocity c)
    (Some j).

End models.

(** ** filters.py *)

Module filters.
Import models.

(** What [approach_or_its_neo] is bound to: the approach, the object its
    [neo] attribute refers to, or [None]. *)
Inductive target : Type :=
| OfApproach (a : CloseApproach)
| OfNeo (n : NearEarthObject)
| OfNone.

(** [approach.neo], resolved in the store of near-Earth objects.  The
    references the database sets always point into the store. *)
Definition approach_neo (heap : list NearEarthObject) (a : CloseApproach)
  : target :=
  match neo a with
  | Some j => if heap !! j is Some n then OfNeo n else OfNone
  | None => OfNone
  end.

(** [getattr(o, attribute)] for the comparable data attributes; any other
    attribute name, and any attribute of [None], is an [AttributeError]. *)
Definition getattr (o : target) (attribute : string) : result pyobj :=
  match o with
  | OfApproach a =>
      if String.eqb attribute "time" then Ok (PDatetime (time a))
      else if String.eqb attribute "distance" then Ok (PFloat (distance a))
      else if String.eqb attribute "velocity" then Ok (PFloat (velocity a))
      else Raise AttributeError
  | OfNeo n =>
      if String.eqb attribute "diameter" then Ok (PFloat (diameter n))
      else if String.eqb attribute "hazardous" then Ok (PBool (hazardous n))
      else Raise AttributeError
  | OfNone => Raise AttributeError
  end.

(** The call [.date()] on a value. *)
Definition call_date (v : pyobj) : result pyobj :=
  match v with
  | PDatetime t => Ok (PDate (datetime.date_of t))
  | _ => Raise AttributeError
  end.

Definition valid_attribute (heap : list NearEarthObject)
    (approach : CloseApproach) (op : pyobj -> pyobj -> result bool)
    (value : pyobj) (attribute : string) : result bool :=
  let neo_attributes := ["diameter"; "hazardous"] in
  let approach_or_its_neo :=
    if existsb (String.eqb attribute) neo_attributes
    then approach_neo heap approach
    else OfApproach approach in
  if String.eqb attribute "time" then
    v <- getattr approach_or_its_neo attribute;
    d <- call_date v;
    op d value
  else if String.eqb attribute "hazardous" then
    v <- getattr approach_or_its_neo attribute;
    op v value
  else
    v <- getattr approach_or_its_neo attribute;
    op v value.

(** The dictionary of filters: argument names to argument values, [None]
    for an option that was not given. *)
Definition filter_dict : Type := list (string * option pyobj).

Definition create_filters
    (date start_date end_date : option datetime.date)
    (distance_min distance_max velocity_min velocity_max
     diameter_min diameter_max : option float)
    (hazardous : option bool) : filter_dict :=
  [("date", PDate <$> date);
   ("start_date", PDate <$> start_date);
   ("end_date", PDate <$> end_date);
   ("distance_min", PFloat <$> distance_min);
   ("distance_max", PFloat <$> distance_max);
   ("velocity_min", PFloat <$> velocity_min);
   ("velocity_max", PFloat <$> velocity_max);
   ("diameter_min", PFloat <$> diameter_min);
   ("diameter_max", PFloat <$> diameter_max);
   ("hazardous", PBool <$> hazardous)].

(** [filters[key]] *)
Fixpoint filters_getitem (filters : filter_dict) (key : string)
  : result (option pyobj) :=
  match filters with
  | [] => Raise KeyError
  | (k, v) :: rest =>
      if String.eqb key k then Ok v else filters_getitem rest key
  end.

Definition limit {A : Type} (iterator : stream A) (n : option Z)
  : result (stream A) :=
  let n' := match n with
            | None => 10%Z
            | Some n => if (n =? 0)%Z then 10%Z else n
            end in
  islice iterator n'.

End filters.

(** ** database.py *)

Module database.
Import models filters.

Record NEODatabase : Type := mkNEODatabase {
  _neos : list NearEarthObject;
  _approaches : list CloseApproach;
  neo_trie : pyval;
  cad_trie : pyval;
  named_neo_list : list nat
}.

(** The descent [if ch not in node: node[ch] = {}] then [node = node[ch]],
    followed by [k] on the child; the child is mutated in place, so the
    parent sees what [k] makes of it. *)
Definition descend (ch : ascii) (node : pyval)
    (k : pyval -> result pyval) : result pyval :=
  present <- py_contains ch node;
  node1 <- (if negb present then py_setitem node ch (Dict []) else Ok node);
  child <- py_getitem node1 ch;
  child' <- k child;
  py_setitem node1 ch child'.

(** Lines 49-57: one close approach, reference [cad], enters the trie under
    the characters of its designation. *)
Fixpoint cad_trie_add (des : string) (cad : nat) (node : pyval)
  : result pyval :=
  match des with
  | String ch des' => descend ch node (cad_trie_add des' cad)
  | EmptyString =>
      present <- py_contains dollar node;
      if present then
        entry <- py_getitem node dollar;
        match entry with
        | CadList l => py_setitem node dollar (CadList (l ++ [cad]))
        | _ => Raise AttributeError
        end
      else py_setitem node dollar (CadList [cad])
  end.

(** Lines 76-81: one near-Earth object, reference [neo], enters the trie
    under the characters of its designation. *)
Fixpoint neo_trie_add (des : string) (neo : nat) (node : pyval)
  : result pyval :=
  match des with
  | String ch des' => descend ch node (neo_trie_add des' neo)
  | EmptyString => py_setitem node dollar (NeoRef neo)
  end.

(** Lines 68-70 and 100-102, the same loop twice: follow the characters of
    a designation from [node]; a character that is not in the current node
    leaves the node where it is. *)
Fixpoint trie_walk (des : string) (node : pyval) : result pyval :=
  match des with
  | EmptyString => Ok node
  | String ch des' =>
      present <- py_contains ch node;
      if present then
        child <- py_getitem node ch;
        trie_walk des' child
      else trie_walk des' node
  end.

(** Lines 48-57 *)
Fixpoint add_cads (todo : list CloseApproach) (i : nat) (trie : pyval)
  : result pyval :=
  match todo with
  | [] => Ok trie
  | cad :: rest =>
      trie' <- cad_trie_add (_designation cad) i trie;
      add_cads rest (S i) trie'
  end.

(** Lines 72-74: [neo.approaches.extend(entry)], then [cad.neo = neo] for
    every [cad] in [entry].  Iterating a dict gives its keys, strings that
    have no attribute [neo] to assign. *)
Definition link (j : nat) (entry : pyval)
    (neos : list NearEarthObject) (cads : list CloseApproach)
  : result (list NearEarthObject * list CloseApproach) :=
  match entry with
  | CadList l =>
      Ok (alter (approaches_extend l) j neos,
          foldl (fun cs i => alter (set_neo j) i cs) cads l)
  | Dict [] => Ok (neos, cads)
  | Dict (_ :: _) => Raise AttributeError
  | NeoRef _ => Raise TypeError
  end.

(** Lines 61-81: the body of the loop over the near-Earth objects, for the
    object [neo] with reference [j]. *)
Definition add_neo (self : NEODatabase) (j : nat) (neo : NearEarthObject)
  : result NEODatabase :=
  let named :=
    if ne_empty (name neo)
    then named_neo_list self ++ [j]
    else named_neo_list self in
  cad_node <- trie_walk (designation neo) (cad_trie self);
  present <- py_contains dollar cad_node;
  linked <-
    (if present then
       entry <- py_getitem cad_node dollar;
       link j entry (_neos self) (_approaches self)
     else Ok (_neos self, _approaches self));
  trie <- neo_trie_add (designation neo) j (neo_trie self);
  Ok (mkNEODatabase linked.1 linked.2 trie (cad_trie self) named).

(** Lines 60-81 *)
Fixpoint add_neos (todo : list NearEarthObject) (j : nat)
    (self : NEODatabase) : result NEODatabase :=
  match todo with
  | [] => Ok self
  | neo :: rest =>
      self' <- add_neo self j neo;
      add_neos rest (S j) self'
  end.

(** [NEODatabase.__init__]: every object of a collection is a distinct
    object, referred to by its position. *)
Definition NEODatabase__init__ (neos : list NearEarthObject)
    (approaches : list CloseApproach) : result NEODatabase :=
  cad_trie <- add_cads approaches 0 (Dict []);
  add_neos neos 0
    (mkNEODatabase neos approaches (Dict []) cad_trie []).

(** The value returned is whatever the trie holds under ['$']. *)
Definition get_neo_by_designation (self : NEODatabase)
    (designation : string) : result (option pyval) :=
  node <- trie_walk designation (neo_trie self);
  present <- py_contains dollar node;
  if present then
    entry <- py_getitem node dollar;
    Ok (Some entry)
  else Ok None.

(** [name] is a string or [None]. *)
Definition get_neo_by_name (self : NEODatabase) (name : option string)
  : option nat :=
  foldl
    (fun return_neo j =>
       match _neos self !! j with
       | Some neo =>
           if bool_decide (models.name neo = name) then Some j
           else return_neo
       | None => return_neo
       end)
    None (named_neo_list self).

(** One [if filters[key] is not None and not valid_attribute(...)] of the
    loop body of [query]. *)
Definition criterion (self : NEODatabase) (filters : filter_dict)
    (approach : CloseApproach) (key : string)
    (op : pyobj -> pyobj -> result bool) (attribute : string)
    (fits_criteria : bool) : result bool :=
  f <- filters_getitem filters key;
  match f with
  | None => Ok fits_criteria
  | Some value =>
      valid <- valid_attribute (_neos self) approach op value attribute;
      Ok (if negb valid then false else fits_criteria)
  end.

(** Lines 144-164: all ten tests are made, whatever the earlier ones
    gave. *)
Definition fits (self : NEODatabase) (filters : filter_dict)
    (approach : CloseApproach) : result bool :=
  let test := criterion self filters approach in
  c <- test "date" operator.eq "time" true;
  c <- test "start_date" operator.ge "time" c;
  c <- test "end_date" operator.le "time" c;
  c <- test "distance_min" operator.ge "distance" c;
  c <- test "distance_max" operator.le "distance" c;
  c <- test "velocity_min" operator.ge "velocity" c;
  c <- test "velocity_max" operator.le "velocity" c;
  c <- test "diameter_min" operator.ge "diameter" c;
  c <- test "diameter_max" operator.le "diameter" c;
  test "hazardous" operator.eq "hazardous" c.

(** The generator of [query] over the approaches [todo], the first of which
    has reference [i]; it yields references. *)
Fixpoint query_from (self : NEODatabase) (filters : filter_dict)
    (todo : list CloseApproach) (i : nat) : stream nat :=
  match todo with
  | [] => mkstream [] None
  | approach :: rest =>
      match fits self filters approach with
      | Raise e => mkstream [] (Some e)
      | Ok fits_criteria =>
          let s := query_from self filters rest (S i) in
          if fits_criteria then mkstream (i :: yielded s) (raised s) else s
      end
  end.

Definition query (self : NEODatabase) (filters : filter_dict) : stream nat :=
  query_from self filters (_approaches self) 0.

End database.

Import models filters database.

(** ** Sample data *)

(** An object as the reader makes it from a row with no name, no diameter
    and no hazard flag. *)
Definition plain_neo (designation : string) : NearEarthObject :=
  mkNearEarthObject designation None nan false [].

Definition new_year_2020 : datetime.datetime :=
  datetime.mkdatetime 2020 1 1 0 0 0 0.

Definition plain_cad (designation : string) : CloseApproach :=
  mkCloseApproach designation new_year_2020 0.25%float 5%float None.

(** The filters of a query that asks for nothing. *)
Definition no_filters : filter_dict :=
  create_filters None None None None None None None None None None.

(** The same object before and after linking: linking assigns [neo] and
    extends [approaches], and leaves every other attribute as it was. *)
Definition same_approach (c' c : CloseApproach) : Prop :=
  _designation c' = _designation c /\ time c' = time c /\
  distance c' = distance c /\ velocity c' = velocity c.

Definition same_neo (n' n : NearEarthObject) : Prop :=
  designation n' = designation n /\ name n' = name n /\
  diameter n' = diameter n /\ hazardous n' = hazardous n.

(** The references that the loop over [todo], whose first object has
    reference [j], appends to [named_neo_list]. *)
Fixpoint named_refs (todo : list NearEarthObject) (j : nat) : list nat :=
  match todo with
  | [] => []
  | neo :: rest =>
      if ne_empty (name neo) then j :: named_refs rest (S j)
      else named_refs rest (S j)
  end.

(** The scan of [get_neo_by_name], told on the collection the database was
    made from: the objects whose name passes [neo.name != ''] are looked
    at in order, and a later match replaces an earlier one. *)
Fixpoint scan_names (nm : option string) (todo : list NearEarthObject)
    (j : nat) (return_neo : option nat) : option nat :=
  match todo with
  | [] => return_neo
  | neo :: rest =>
      scan_names nm rest (S j)
        (if ne_empty (name neo) && bool_decide (name neo = nm)
         then Some j else return_neo)
  end.

Definition eros : NearEarthObject :=
  mkNearEarthObject "433" (Some "Eros") 16.75%float false [].

Definition eros_again : NearEarthObject :=
  mkNearEarthObject "2020 AB" (Some "Eros") nan true [].

(** ** What a filter set asks of one approach *)

(** A criterion that was not given asks for nothing. *)
Definition asks {V : Type} (criterion : option V) (test : V -> bool) : bool :=
  match criterion with
  | None => true
  | Some v => test v
  end.

(** A criterion on the linked object: it cannot be evaluated on an approach
    whose [neo] is [None]. *)
Definition asks_neo {V : Type} (o : target) (criterion : option V)
    (test : NearEarthObject -> V -> bool) : result bool :=
  match criterion with
  | None => Ok true
  | Some v =>
      match o with
      | OfNeo n => Ok (test n v)
      | _ => Raise AttributeError
      end
  end.

Definition approach_date (a : CloseApproach) : list Z :=
  date_key (datetime.date_of (time a)).

Definition on_date (a : CloseApproach) (d : datetime.date) : bool :=
  tuple_eqb (approach_date a) (date_key d).
Definition on_or_after (a : CloseApproach) (d : datetime.date) : bool :=
  tuple_leb (date_key d) (approach_date a).
Definition on_or_before (a : CloseApproach) (d : datetime.date) : bool :=
  tuple_leb (approach_date a) (date_key d).

(** The seven criteria on the approach itself, in the order of [query]. *)
Definition approach_matches (a : CloseApproach)
    (date start_date end_date : option datetime.date)
    (distance_min distance_max velocity_min velocity_max : option float)
  : bool :=
  asks velocity_max (fun v => PrimFloat.leb (velocity a) v) &&
  (asks velocity_min (fun v => PrimFloat.leb v (velocity a)) &&
  (asks distance_max (fun v => PrimFloat.leb (distance a) v) &&
  (asks distance_min (fun v => PrimFloat.leb v (distance a)) &&
  (asks end_date (on_or_before a) &&
  (asks start_date (on_or_after a) &&
  (asks date (on_date a) && true)))))).

(** The approach [a] at another time of the same day. *)
Definition at_time_of_day (a : CloseApproach) (h m s us : Z) : CloseApproach :=
  mkCloseApproach (_designation a)
    (datetime.mkdatetime (datetime.year (time a)) (datetime.month (time a))
       (datetime.day (time a)) h m s us)
    (distance a) (velocity a) (neo a).

Definition jan_1_2020 : datetime.date := datetime.mkdate 2020 1 1.

(** ** The shape of the two tries *)

(** A designation that does not use the end marker. *)
Fixpoint dollar_free (des : string) : bool :=
  match des with
  | EmptyString => true
  | String ch des' => negb (Ascii.eqb ch dollar) && dollar_free des'
  end.

(** The characters of [des] lead from [node], dict by dict, to a dict that
    holds [v] under the end marker. *)
Fixpoint at_path (des : string) (node v : pyval) : Prop :=
  match des with
  | EmptyString =>
      exists items, node = Dict items /\ dict_get dollar items = Some v
  | String ch des' =>
      exists items child,
        node = Dict items /\ dict_get ch items = Some child /\
        at_path des' child v
  end.

Definition is_CadList (v : pyval) : bool :=
  if v is CadList _ then true else false.
Definition is_NeoRef (v : pyval) : bool :=
  if v is NeoRef _ then true else false.

(** A trie built from designations without the end marker: dicts all the
    way down, with a [leaf] under every end marker. *)
Fixpoint wf_trie (leaf : pyval -> bool) (node : pyval) : bool :=
  match node with
  | Dict items =>
      forallb (fun kv => match kv with
                         | (k, v) =>
                             if Ascii.eqb k dollar then leaf v
                             else wf_trie leaf v
                         end) items
  | _ => false
  end.

(** ** models.py: the two [fullname] properties *)

(** [NearEarthObject.fullname], lines 59-62: [self.designation + ' ' +
    self.name]; a string and [None] do not add. *)
Definition NearEarthObject_fullname (self : NearEarthObject) : result string :=
  match name self with
  | Some s => Ok (designation self +:+ " " +:+ s)
  | None => Raise TypeError
  end.

(** [CloseApproach.fullname], lines 130-134.  A conditional expression binds
    more loosely than [+], and nests to the right: the source reads
    ['' if self.neo is None else ((self.neo.designation + ' ' + '')
    if self.neo is None else self.neo.name)].  The value is a string or
    [None]. *)
Definition CloseApproach_fullname (heap : list NearEarthObject)
    (self : CloseApproach) : result (option string) :=
  if bool_decide (neo self = None) then Ok (Some "")
  else if bool_decide (neo self = None) then
    match approach_neo heap self with
    | OfNeo n => Ok (Some (designation n +:+ " " +:+ ""))
    | _ => Raise AttributeError
    end
  else
    match approach_neo heap self with
    | OfNeo n => Ok (name n)
    | _ => Raise AttributeError
    end.

(** ** write.py *)

(** The two writers are taken up to what they hand to [csv.writer] and to
    [json.dump]: the rows and the dictionaries, not the text made of them.
    [results] is the trace of the iterable of close approaches; [heap] is the
    store their [neo] attributes refer into. *)
Module write.

(** A value in a row of the CSV file. *)
Inductive cell : Type :=
| CellDatetime (t : datetime.datetime)
| CellFloat (f : float)
| CellStr (s : string)
| CellBool (b : bool)
| CellNone.

Definition fieldnames : list cell :=
  [CellStr "datetime_utc"; CellStr "distance_au"; CellStr "velocity_km_s";
   CellStr "designation"; CellStr "name"; CellStr "diameter_km";
   CellStr "potentially_hazardous"].

(** Line 32: the list [text] of one result. *)
Definition text_of (heap : list NearEarthObject) (row : CloseApproach)
  : result (list cell) :=
  match approach_neo heap row with
  | OfNeo n =>
      Ok [CellDatetime (time row); CellFloat (distance row);
          CellFloat (velocity row); CellStr (designation n);
          (if name n is Some s then CellStr s else CellNone);
          CellFloat (diameter n); CellBool (hazardous n)]
  | _ => Raise AttributeError
  end.

(** Lines 31-33: the rows written for the results, and the exception that
    stops the loop: one raised for a result, or [ending], the one that ends
    the iterable. *)
Fixpoint write_rows (heap : list NearEarthObject)
    (results : list CloseApproach) (ending : option exn)
  : stream (list cell) :=
  match results with
  | [] => mkstream [] ending
  | row :: rest =>
      match text_of heap row with
      | Raise e => mkstream [] (Some e)
      | Ok text =>
          let s := write_rows heap rest ending in
          mkstream (text :: yielded s) (raised s)
      end
  end.

(** [write_to_csv]: the rows that reach the file, and the exception that
    the call ends with, if any. *)
Definition write_to_csv (heap : list NearEarthObject)
    (results : stream CloseApproach) : stream (list cell) :=
  let s := write_rows heap (yielded results) (raised results) in
  mkstream (fieldnames :: yielded s) (raised s).

(** Lines 53-58 and 50-59: the two dictionaries made for one result. *)
Record neo_dict : Type := mkneo_dict {
  designation : string;
  name : option string;
  diameter_km : float;
  potentially_hazardous : bool
}.

Record cae_dict : Type := mkcae_dict {
  datetime_utc : string;
  distance_au : float;
  velocity_km_s : float;
  neo : neo_dict
}.

Section Json.

(** [helpers.datetime_to_str] *)
Variable datetime_to_str : datetime.datetime -> string.

Definition cae_dict_of (heap : list NearEarthObject) (cae : CloseApproach)
  : result cae_dict :=
  match approach_neo heap cae with
  | OfNeo n =>
      Ok (mkcae_dict (datetime_to_str (time cae)) (distance cae)
            (velocity cae)
            (mkneo_dict (models.designation n) (models.name n)
               (models.diameter n) (models.hazardous n)))
  | _ => Raise AttributeError
  end.

(** Lines 47-60 *)
Fixpoint cae_list_of (heap : list NearEarthObject)
    (results : list CloseApproach) : result (list cae_dict) :=
  match results with
  | [] => Ok []
  | cae :: rest =>
      d <- cae_dict_of heap cae;
      l <- cae_list_of heap rest;
      Ok (d :: l)
  end.

(** [write_to_json]: the list that reaches the file; the file is opened
    after the loop over the results, so an exception leaves no file. *)
Definition write_to_json (heap : list NearEarthObject)
    (results : stream CloseApproach) : result (list cae_dict) :=
  cae_list <- cae_list_of heap (yielded results);
  match raised results with
  | Some e => Raise e
  | None => Ok cae_list
  end.

End Json.

End write.

(** ** More on what the database holds *)

(** The three criteria on the linked object, in the order of [query]. *)
Definition neo_matches (n : NearEarthObject)
    (diameter_min diameter_max : option float) (hazardous : option bool)
  : bool :=
  asks hazardous (fun v => Bool.eqb (models.hazardous n) v) &&
  (asks diameter_max (fun v => PrimFloat.leb (diameter n) v) &&
   asks diameter_min (fun v => PrimFloat.leb v (diameter n))).

(** The references of the approaches of [todo] whose designation is [des],
    the first approach of [todo] having reference [i]. *)
Fixpoint matching_refs (des : string) (todo : list CloseApproach) (i : nat)
  : list nat :=
  match todo with
  | [] => []
  | cad :: rest =>
      if String.eqb (_designation cad) des
      then i :: matching_refs des rest (S i)
      else matching_refs des rest (S i)
  end.

(** What a trie holds under exactly the characters of [des] and the end
    marker. *)
Fixpoint trie_find (des : string) (node : pyval) : option pyval :=
  match node with
  | Dict items =>
      match des with
      | EmptyString => dict_get dollar items
      | String ch des' =>
          match dict_get ch items with
          | Some child => trie_find des' child
          | None => None
          end
      end
  | _ => None
  end.

(** The list a trie holds for [des], if it holds one. *)
Definition cads_at (des : string) (node : pyval) : list nat :=
  if trie_find des node is Some (CadList l) then l else [].

(** The list that lines 65-72 find for a designation: the entry under the
    end marker of the node where the walk stops, when it is a list. *)
Definition found_cads (des : string) (cad_trie : pyval) : list nat :=
  match trie_walk des cad_trie with
  | Ok (Dict items) =>
      if dict_get dollar items is Some (CadList l) then l else []
  | _ => []
  end.

(** Every approach that has a [neo] is among the [approaches] of that
    object. *)
Definition back_linked (neos : list NearEarthObject)
    (cads : list CloseApproach) : Prop :=
  forall i c j, cads !! i = Some c -> neo c = Some j ->
                exists n, neos !! j = Some n /\ i ∈ approaches n.

(** A database of one object and two approaches linked to it. *)
Definition linked_eros_db : NEODatabase :=
  mkNEODatabase [eros]
    [set_neo 0 (plain_cad "433"); set_neo 0 (plain_cad "433")]
    (Dict []) (Dict []) [0].

(** The row of the CSV file that carries the values of a dictionary of the
    JSON file, for an approach at time [t]. *)
Definition row_of_dict (t : datetime.datetime) (d : write.cae_dict)
  : list write.cell :=
  [write.CellDatetime t; write.CellFloat (write.distance_au d);
   write.CellFloat (write.velocity_km_s d);
   write.CellStr (write.designation (write.neo d));
   (if write.name (write.neo d) is Some s
    then write.CellStr s else write.CellNone);
   write.CellFloat (write.diameter_km (write.neo d));
   write.CellBool (write.potentially_hazardous (write.neo d))].

(** Every reference in the trie stands under the designation of the object
    it refers to. *)
Definition filed_under (neos : list NearEarthObject) (trie : pyval) : Prop :=
  forall p j, dollar_free p = true -> trie_find p trie = Some (NeoRef j) ->
              exists n, neos !! j = Some n /\ designation n = p.

(** * Properties *)

(** ** Construction keeps the objects and their order *)

Section Construction.

Lemma bind_Ok {A B : Type} (m : result A) (f : A -> result B) (b : B) :
  bind m f = Ok b -> exists a, m = Ok a /\ f a = Ok b.
Proof. destruct m as [a|e]; simpl; [eauto | discriminate]. Qed.

Lemma same_approach_refl c : same_approach c c.
Proof. by repeat split. Qed.

Lemma same_neo_refl n : same_neo n n.
Proof. by repeat split. Qed.

Lemma same_approach_alter j i cads cads0 :
  Forall2 same_approach cads cads0 ->
  Forall2 same_approach (alter (set_neo j) i cads) cads0.
Proof.
  intros H. revert i. induction H as [|c c0 cs cs0 Hc Hcs IH]; intros i.
  - constructor.
  - destruct i as [|i]; simpl.
    + constructor; [exact Hc | exact Hcs].
    + constructor; [exact Hc | apply IH].
Qed.

Lemma same_approach_foldl j l cads cads0 :
  Forall2 same_approach cads cads0 ->
  Forall2 same_approach
    (foldl (fun cs i => alter (set_neo j) i cs) cads l) cads0.
Proof.
  revert cads. induction l as [|i l IH]; intros cads H; simpl.
  - exact H.
  - apply IH, same_approach_alter, H.
Qed.

Lemma same_neo_alter l j neos neos0 :
  Forall2 same_neo neos neos0 ->
  Forall2 same_neo (alter (approaches_extend l) j neos) neos0.
Proof.
  intros H. revert j. induction H as [|n n0 ns ns0 Hn Hns IH]; intros j.
  - constructor.
  - destruct j as [|j]; simpl.
    + constructor; [exact Hn | exact Hns].
    + constructor; [exact Hn | apply IH].
Qed.

Lemma link_same j entry neos cads neos' cads' neos0 cads0 :
  link j entry neos cads = Ok (neos', cads') ->
  Forall2 same_neo neos neos0 -> Forall2 same_approach cads cads0 ->
  Forall2 same_neo neos' neos0 /\ Forall2 same_approach cads' cads0.
Proof.
  intros H Hn Hc. destruct entry as [[|kv items]|l|r]; simpl in H;
    try discriminate; injection H as <- <-.
  - by split.
  - split; [by apply same_neo_alter | by apply same_approach_foldl].
Qed.

(** One step of the loop over the near-Earth objects. *)
Lemma add_neo_inv self j neo self' :
  add_neo self j neo = Ok self' ->
  exists linked trie,
    neo_trie_add (designation neo) j (neo_trie self) = Ok trie /\
    self' = mkNEODatabase linked.1 linked.2 trie (cad_trie self)
              (if ne_empty (name neo) then named_neo_list self ++ [j]
               else named_neo_list self) /\
    (forall neos0 cads0,
        Forall2 same_neo (_neos self) neos0 ->
        Forall2 same_approach (_approaches self) cads0 ->
        Forall2 same_neo linked.1 neos0 /\
        Forall2 same_approach linked.2 cads0).
Proof.
  unfold add_neo. intros H.
  apply bind_Ok in H as (cad_node & _ & H).
  apply bind_Ok in H as (present & _ & H).
  apply bind_Ok in H as (linked & Hl & H).
  apply bind_Ok in H as (trie & Ht & H).
  injection H as <-. exists linked, trie. split; [exact Ht|]. split; [done|].
  intros neos0 cads0 Hn Hc. destruct present.
  - apply bind_Ok in Hl as (entry & _ & Hl). destruct linked as [ns cs].
    eapply link_same; eauto.
  - injection Hl as <-. by split.
Qed.

Lemma add_neos_inv todo : forall j self db,
  add_neos todo j self = Ok db ->
  cad_trie db = cad_trie self /\
  named_neo_list db = named_neo_list self ++ named_refs todo j /\
  (forall neos0 cads0,
      Forall2 same_neo (_neos self) neos0 ->
      Forall2 same_approach (_approaches self) cads0 ->
      Forall2 same_neo (_neos db) neos0 /\
      Forall2 same_approach (_approaches db) cads0).
Proof.
  induction todo as [|neo rest IH]; intros j self db H; simpl in H.
  - injection H as <-. simpl. rewrite app_nil_r. by repeat split.
  - apply bind_Ok in H as (self' & Hstep & H).
    apply add_neo_inv in Hstep as (linked & trie & _ & -> & Hsame).
    apply IH in H as (Hc & Hn & Hrest). simpl in *.
    split; [exact Hc|]. split.
    + rewrite Hn. destruct (ne_empty (name neo)); simpl;
        by rewrite <- ?app_assoc.
    + intros neos0 cads0 H1 H2.
      destruct (Hsame _ _ H1 H2) as [H3 H4]. by apply Hrest.
Qed.

(** The database holds the objects it was given, in the order it was given
    them; construction touches [approaches] and [neo] only. *)
Lemma init_same neos cads db :
  NEODatabase__init__ neos cads = Ok db ->
  Forall2 same_neo (_neos db) neos /\
  Forall2 same_approach (_approaches db) cads /\
  named_neo_list db = named_refs neos 0.
Proof.
  unfold NEODatabase__init__. intros H.
  apply bind_Ok in H as (trie & _ & H).
  apply add_neos_inv in H as (_ & Hn & Hsame). simpl in *.
  destruct (Hsame neos cads) as [H1 H2].
  - apply Forall_Forall2_diag, Forall_forall. intros; apply same_neo_refl.
  - apply Forall_Forall2_diag, Forall_forall.
    intros; apply same_approach_refl.
  - by repeat split.
Qed.

End Construction.

(** ** Lookup by name *)

Section ByName.

Lemma foldl_named_refs (store : list NearEarthObject) nm todo :
  forall j acc,
    (forall k n, todo !! k = Some n ->
                 exists n', store !! (j + k) = Some n' /\ name n' = name n) ->
    foldl
      (fun return_neo j =>
         match store !! j with
         | Some neo =>
             if bool_decide (name neo = nm) then Some j else return_neo
         | None => return_neo
         end) acc (named_refs todo j)
    = scan_names nm todo j acc.
Proof.
  induction todo as [|neo rest IH]; intros j acc Hstore; simpl; [done|].
  assert (Hrest : forall k n, rest !! k = Some n ->
            exists n', store !! (S j + k) = Some n' /\ name n' = name n).
  { intros k n Hk. destruct (Hstore (S k) n Hk) as (n' & Hn' & Hname).
    exists n'. split; [|done]. by replace (S j + k) with (j + S k) by lia. }
  destruct (Hstore 0 neo eq_refl) as (n' & Hn' & Hname).
  rewrite Nat.add_0_r in Hn'.
  destruct (ne_empty (name neo)); simpl.
  - rewrite Hn', Hname. by apply IH.
  - by apply IH.
Qed.

Lemma get_neo_by_name_scan neos cads db nm :
  NEODatabase__init__ neos cads = Ok db ->
  get_neo_by_name db nm = scan_names nm neos 0 None.
Proof.
  intros H. apply init_same in H as (Hn & _ & Hl).
  unfold get_neo_by_name. rewrite Hl. apply foldl_named_refs.
  intros k n Hk. simpl.
  destruct (Forall2_lookup_r _ _ _ _ _ Hn Hk) as (n' & Hn' & Hs).
  exists n'. split; [done|]. apply Hs.
Qed.

Lemma scan_names_miss nm todo :
  Forall (fun n => ne_empty (name n) = false \/ name n <> nm) todo ->
  forall j acc, scan_names nm todo j acc = acc.
Proof.
  induction 1 as [|neo rest Hneo _ IH]; intros j acc; simpl; [done|].
  rewrite IH. destruct Hneo as [-> | Hne]; [done|].
  rewrite bool_decide_eq_false_2 by done. by rewrite andb_false_r.
Qed.

Lemma scan_names_last nm pre neo rest :
  ne_empty (name neo) = true -> name neo = nm ->
  Forall (fun n => ne_empty (name n) = false \/ name n <> nm) rest ->
  forall j acc,
    scan_names nm (pre ++ neo :: rest) j acc = Some (j + length pre).
Proof.
  intros Hne Hnm Hrest. induction pre as [|p pre IH]; intros j acc; simpl.
  - rewrite scan_names_miss by done.
    rewrite Hne, bool_decide_eq_true_2 by done. simpl. f_equal. lia.
  - rewrite IH. f_equal. lia.
Qed.

(** No object is found under the empty string. *)
Lemma get_neo_by_name_empty_string neos cads db :
  NEODatabase__init__ neos cads = Ok db ->
  get_neo_by_name db (Some "") = None.
Proof.
  intros H. rewrite (get_neo_by_name_scan _ _ _ _ H).
  apply scan_names_miss, Forall_forall. intros n _.
  destruct (name n) as [s|] eqn:Hs; simpl.
  - destruct (String.eqb_spec s "") as [->|Hne]; [by left|].
    right. congruence.
  - by right.
Qed.

End ByName.

(** C9: when several objects of the collection share a non-empty name,
    [get_neo_by_name] returns the last of them in the order of the
    collection: the object at [j] bears the name and no later object does. *)
Theorem C9_get_neo_by_name_last_match
    (neos : list NearEarthObject) (cads : list CloseApproach)
    (db : NEODatabase) (s : string) (j : nat) (n : NearEarthObject) :
  NEODatabase__init__ neos cads = Ok db ->
  s <> "" ->
  neos !! j = Some n -> name n = Some s ->
  (forall k m, j < k -> neos !! k = Some m -> name m <> Some s) ->
  get_neo_by_name db (Some s) = Some j /\
  (exists n', _neos db !! j = Some n' /\ same_neo n' n).
Proof.
  intros Hinit Hs Hj Hname Hlater. split.
  - rewrite (get_neo_by_name_scan _ _ _ _ Hinit).
    rewrite <- (take_drop_middle _ _ _ Hj).
    rewrite scan_names_last.
    + f_equal. rewrite length_take. apply lookup_lt_Some in Hj. lia.
    + rewrite Hname. simpl. by destruct (String.eqb_spec s "").
    + exact Hname.
    + apply Forall_forall. intros m Hm. right.
      apply list_elem_of_lookup in Hm as [k Hk].
      rewrite lookup_drop in Hk. eapply Hlater; [|exact Hk]. lia.
  - apply init_same in Hinit as (Hn & _ & _).
    destruct (Forall2_lookup_r _ _ _ _ _ Hn Hj) as (n' & Hn' & Hsame). eauto.
Qed.

Lemma C9_get_neo_by_name_last_match_witness :
  exists db,
    NEODatabase__init__ [eros; eros_again; plain_neo "1036"] [] = Ok db /\
    get_neo_by_name db (Some "Eros") = Some 1.
Proof.
  eexists. split; [vm_compute; reflexivity|].
  refine (proj1 (C9_get_neo_by_name_last_match
            [eros; eros_again; plain_neo "1036"] [] _ "Eros" 1 eros_again
            eq_refl _ eq_refl eq_refl _)).
  - discriminate.
  - intros [|[|[|k]]] m Hk Hm; try lia; simpl in Hm; [|discriminate].
    injection Hm as <-. discriminate.
Defined.

(** ** The generator of [query] *)

Section Generator.

Variable self : NEODatabase.
Variable filters : filter_dict.

Lemma query_from_elem todo : forall i x,
  x ∈ yielded (query_from self filters todo i) ->
  exists k a, x = i + k /\ todo !! k = Some a /\
              fits self filters a = Ok true.
Proof.
  induction todo as [|a rest IH]; intros i x Hx; simpl in Hx.
  - by apply elem_of_nil in Hx.
  - destruct (fits self filters a) as [[|]|e] eqn:Hfits; simpl in Hx.
    + apply elem_of_cons in Hx as [-> | Hx].
      * exists 0, a. rewrite Nat.add_0_r. by repeat split.
      * apply IH in Hx as (k & a' & -> & Hk & Ha').
        exists (S k), a'. repeat split; [lia | done | done].
    + apply IH in Hx as (k & a' & -> & Hk & Ha').
      exists (S k), a'. repeat split; [lia | done | done].
    + by apply elem_of_nil in Hx.
Qed.

Lemma query_from_complete todo : forall i k a,
  raised (query_from self filters todo i) = None ->
  todo !! k = Some a -> fits self filters a = Ok true ->
  i + k ∈ yielded (query_from self filters todo i).
Proof.
  induction todo as [|a0 rest IH]; intros i k a Hr Hk Ha; [done|].
  simpl in *. destruct (fits self filters a0) as [b|e] eqn:Hfits;
    [|discriminate].
  assert (Hrest : raised (query_from self filters rest (S i)) = None)
    by (by destruct b).
  destruct k as [|k]; simpl in Hk.
  - injection Hk as ->. rewrite Hfits in Ha. injection Ha as ->.
    rewrite Nat.add_0_r. simpl. apply elem_of_cons. by left.
  - replace (i + S k) with (S i + k) by lia.
    specialize (IH (S i) k a Hrest Hk Ha).
    destruct b; simpl; [apply elem_of_cons; by right | done].
Qed.

Lemma query_from_sublist todo : forall i,
  sublist (yielded (query_from self filters todo i)) (seq i (length todo)).
Proof.
  induction todo as [|a rest IH]; intros i; simpl; [constructor|].
  destruct (fits self filters a) as [[|]|e]; simpl.
  - by apply sublist_skip.
  - by apply sublist_cons.
  - apply sublist_nil_l.
Qed.

(** When the test of an approach stops the generator, nothing from that
    approach on is yielded. *)
Lemma query_from_raise e todo : forall i k a,
  (forall a', a' ∈ todo ->
     fits self filters a' = Raise e \/ exists b, fits self filters a' = Ok b) ->
  todo !! k = Some a -> fits self filters a = Raise e ->
  raised (query_from self filters todo i) = Some e /\
  (forall x, x ∈ yielded (query_from self filters todo i) -> x < i + k).
Proof.
  induction todo as [|a0 rest IH]; intros i k a Hall Hk Ha; [done|].
  simpl. destruct k as [|k]; simpl in Hk.
  - injection Hk as ->. rewrite Ha. simpl. split; [done|].
    intros x Hx. by apply elem_of_nil in Hx.
  - assert (Hrest : forall a', a' ∈ rest ->
              fits self filters a' = Raise e \/
              exists b, fits self filters a' = Ok b).
    { intros a' Ha'. apply Hall, elem_of_cons. by right. }
    destruct (IH (S i) k a Hrest Hk Ha) as [Hr Hy].
    destruct (Hall a0) as [He | [b Hb]]; [apply elem_of_cons; by left | |].
    + rewrite He. simpl. split; [done|].
      intros x Hx. by apply elem_of_nil in Hx.
    + rewrite Hb. destruct b; simpl; (split; [done|]); intros x Hx.
      * apply elem_of_cons in Hx as [-> | Hx]; [lia|].
        apply Hy in Hx. lia.
      * apply Hy in Hx. lia.
Qed.

End Generator.

Lemma query_from_no_filters self todo : forall i,
  query_from self no_filters todo i = mkstream (seq i (length todo)) None.
Proof.
  induction todo as [|a rest IH]; intros i; simpl; [done|].
  by rewrite IH.
Qed.

(** C5: with no criterion given, [query] yields every close approach of the
    collection the database was made from, once each, in the order of the
    collection, and raises nothing. *)
Theorem C5_query_without_criteria
    (neos : list NearEarthObject) (cads : list CloseApproach)
    (db : NEODatabase) :
  NEODatabase__init__ neos cads = Ok db ->
  query db (create_filters None None None None None None None None None None)
    = mkstream (seq 0 (length cads)) None /\
  Forall2 same_approach (_approaches db) cads.
Proof.
  intros H. apply init_same in H as (_ & Hc & _). split; [|exact Hc].
  unfold query. fold no_filters.
  rewrite (query_from_no_filters db (_approaches db) 0).
  by rewrite (Forall2_length _ _ _ Hc).
Qed.

Lemma C5_query_without_criteria_witness :
  exists db,
    NEODatabase__init__ [eros] [plain_cad "433"; plain_cad "2020 AB"] = Ok db /\
    query db no_filters = mkstream [0; 1] None.
Proof.
  eexists. split; [vm_compute; reflexivity|].
  exact (proj1 (C5_query_without_criteria
                  [eros] [plain_cad "433"; plain_cad "2020 AB"] _ eq_refl)).
Defined.

(** Whatever the filters, the results are results of the query with no
    criterion, in the same order. *)
Lemma query_only_removes (db : NEODatabase) (filters : filter_dict) :
  sublist (yielded (query db filters)) (yielded (query db no_filters)).
Proof.
  unfold query. rewrite (query_from_no_filters db (_approaches db) 0).
  apply query_from_sublist.
Qed.

(** Called with no argument, [query] has the empty dict for its filters, and
    the first test of the first approach looks up a key that is not there. *)
Lemma query_default_argument (db : NEODatabase) a rest :
  _approaches db = a :: rest -> query db [] = mkstream [] (Some KeyError).
Proof. unfold query. by intros ->. Qed.

(** C6: whatever [query] yields when only [diameter_min] is given, it also
    yields when no criterion is given: giving a criterion only removes
    results. *)
Theorem C6_diameter_min_subset (db : NEODatabase) (d : float) (i : nat) :
  i ∈ yielded (query db (create_filters None None None None None None None
                           (Some d) None None)) ->
  i ∈ yielded (query db (create_filters None None None None None None None
                           None None None)).
Proof.
  intros Hi. unfold query in *. fold no_filters.
  rewrite (query_from_no_filters db (_approaches db) 0). simpl.
  eapply elem_of_sublist; [exact Hi | apply query_from_sublist].
Qed.

(** ** The ten tests of [query] on one approach *)

Section Criteria.

Variable self : NEODatabase.
Variable a : CloseApproach.
Variables date start_date end_date : option datetime.date.
Variables distance_min distance_max : option float.
Variables velocity_min velocity_max : option float.
Variables diameter_min diameter_max : option float.
Variable hazardous : option bool.

Let filters : filter_dict :=
  create_filters date start_date end_date distance_min distance_max
    velocity_min velocity_max diameter_min diameter_max hazardous.

Let its_neo : target := approach_neo (_neos self) a.

Lemma if_negb (b c : bool) : (if negb b then false else c) = b && c.
Proof. by destruct b. Qed.

Lemma criterion_date c :
  criterion self filters a "date" operator.eq "time" c
  = Ok (asks date (on_date a) && c).
Proof. destruct date; cbn; by rewrite ?if_negb. Qed.

Lemma criterion_start_date c :
  criterion self filters a "start_date" operator.ge "time" c
  = Ok (asks start_date (on_or_after a) && c).
Proof. destruct start_date; cbn; by rewrite ?if_negb. Qed.

Lemma criterion_end_date c :
  criterion self filters a "end_date" operator.le "time" c
  = Ok (asks end_date (on_or_before a) && c).
Proof. destruct end_date; cbn; by rewrite ?if_negb. Qed.

Lemma criterion_distance_min c :
  criterion self filters a "distance_min" operator.ge "distance" c
  = Ok (asks distance_min (fun v => PrimFloat.leb v (distance a)) && c).
Proof. destruct distance_min; cbn; by rewrite ?if_negb. Qed.

Lemma criterion_distance_max c :
  criterion self filters a "distance_max" operator.le "distance" c
  = Ok (asks distance_max (fun v => PrimFloat.leb (distance a) v) && c).
Proof. destruct distance_max; cbn; by rewrite ?if_negb. Qed.

Lemma criterion_velocity_min c :
  criterion self filters a "velocity_min" operator.ge "velocity" c
  = Ok (asks velocity_min (fun v => PrimFloat.leb v (velocity a)) && c).
Proof. destruct velocity_min; cbn; by rewrite ?if_negb. Qed.

Lemma criterion_velocity_max c :
  criterion self filters a "velocity_max" operator.le "velocity" c
  = Ok (asks velocity_max (fun v => PrimFloat.leb (velocity a) v) && c).
Proof. destruct velocity_max; cbn; by rewrite ?if_negb. Qed.

Lemma criterion_diameter_min c :
  criterion self filters a "diameter_min" operator.ge "diameter" c
  = (t <- asks_neo its_neo diameter_min
             (fun n v => PrimFloat.leb v (diameter n)); Ok (t && c)).
Proof.
  unfold its_neo. destruct diameter_min; cbn; [|done].
  destruct (approach_neo (_neos self) a); cbn; by rewrite ?if_negb.
Qed.

Lemma criterion_diameter_max c :
  criterion self filters a "diameter_max" operator.le "diameter" c
  = (t <- asks_neo its_neo diameter_max
             (fun n v => PrimFloat.leb (diameter n) v); Ok (t && c)).
Proof.
  unfold its_neo. destruct diameter_max; cbn; [|done].
  destruct (approach_neo (_neos self) a); cbn; by rewrite ?if_negb.
Qed.

Lemma criterion_hazardous c :
  criterion self filters a "hazardous" operator.eq "hazardous" c
  = (t <- asks_neo its_neo hazardous
             (fun n v => Bool.eqb (models.hazardous n) v); Ok (t && c)).
Proof.
  unfold its_neo. destruct hazardous as [[|]|]; cbn; [| |done].
  - destruct (approach_neo (_neos self) a) as [|n|]; cbn; [done| |done].
    by destruct (models.hazardous n).
  - destruct (approach_neo (_neos self) a) as [|n|]; cbn; [done| |done].
    by destruct (models.hazardous n).
Qed.

(** The tests combine by conjunction; the three on the linked object raise
    [AttributeError] when given for an approach that has none. *)
Lemma fits_spec :
  fits self filters a
  = (t1 <- asks_neo its_neo diameter_min
              (fun n v => PrimFloat.leb v (diameter n));
     t2 <- asks_neo its_neo diameter_max
              (fun n v => PrimFloat.leb (diameter n) v);
     t3 <- asks_neo its_neo hazardous
              (fun n v => Bool.eqb (models.hazardous n) v);
     Ok (t3 && (t2 && (t1 &&
           approach_matches a date start_date end_date distance_min
             distance_max velocity_min velocity_max)))).
Proof.
  unfold fits. fold filters.
  rewrite criterion_date. cbn [bind].
  rewrite criterion_start_date. cbn [bind].
  rewrite criterion_end_date. cbn [bind].
  rewrite criterion_distance_min. cbn [bind].
  rewrite criterion_distance_max. cbn [bind].
  rewrite criterion_velocity_min. cbn [bind].
  rewrite criterion_velocity_max. cbn [bind].
  rewrite criterion_diameter_min.
  destruct (asks_neo its_neo diameter_min _) as [t1|e]; cbn [bind]; [|done].
  rewrite criterion_diameter_max.
  destruct (asks_neo its_neo diameter_max _) as [t2|e]; cbn [bind]; [|done].
  rewrite criterion_hazardous.
  by destruct (asks_neo its_neo hazardous _) as [t3|e].
Qed.

(** The tests raise nothing but [AttributeError]. *)
Lemma fits_Ok_or_AttributeError :
  fits self filters a = Raise AttributeError \/
  exists b, fits self filters a = Ok b.
Proof.
  rewrite fits_spec. unfold asks_neo.
  destruct diameter_min, diameter_max, hazardous, its_neo; cbn; eauto.
Qed.

(** With no criterion on the linked object, the tests are those on the
    approach. *)
Lemma fits_approach_level :
  diameter_min = None -> diameter_max = None -> hazardous = None ->
  fits self filters a
  = Ok (approach_matches a date start_date end_date distance_min
          distance_max velocity_min velocity_max).
Proof. intros H1 H2 H3. rewrite fits_spec, H1, H2, H3. reflexivity. Qed.

(** A criterion on the linked object, on an approach that has none. *)
Lemma fits_unlinked :
  neo a = None ->
  diameter_min <> None \/ diameter_max <> None \/ hazardous <> None ->
  fits self filters a = Raise AttributeError.
Proof.
  intros Hneo Hactive. rewrite fits_spec.
  unfold its_neo, approach_neo. rewrite Hneo. unfold asks_neo.
  destruct diameter_min, diameter_max, hazardous; cbn; try done.
  destruct Hactive as [H | [H | H]]; by destruct H.
Qed.

End Criteria.

Lemma query_from_no_raise self filters todo : forall i,
  (forall a, a ∈ todo -> exists b, fits self filters a = Ok b) ->
  raised (query_from self filters todo i) = None.
Proof.
  induction todo as [|a rest IH]; intros i Hall; simpl; [done|].
  destruct (Hall a) as [b ->]; [apply elem_of_cons; by left|].
  assert (raised (query_from self filters rest (S i)) = None) as Hrest.
  { apply IH. intros a' Ha'. apply Hall, elem_of_cons. by right. }
  by destruct b.
Qed.

(** C2, as the code has it: for an approach whose [neo] is [None], a query
    with [diameter_min], [diameter_max] or [hazardous] given never yields
    that approach, because the test of the first such approach raises
    [AttributeError] and ends the results there; a query with criteria on the
    approach only raises nothing and yields the approach when it meets
    them. *)
Theorem C2_unlinked_approach
    (db : NEODatabase) (i : nat) (a : CloseApproach)
    (date start_date end_date : option datetime.date)
    (distance_min distance_max velocity_min velocity_max
     diameter_min diameter_max : option float)
    (hazardous : option bool) :
  _approaches db !! i = Some a -> neo a = None ->
  (diameter_min <> None \/ diameter_max <> None \/ hazardous <> None ->
   raised (query db (create_filters date start_date end_date distance_min
                       distance_max velocity_min velocity_max diameter_min
                       diameter_max hazardous)) = Some AttributeError /\
   (forall x,
      x ∈ yielded (query db (create_filters date start_date end_date
                               distance_min distance_max velocity_min
                               velocity_max diameter_min diameter_max
                               hazardous)) -> x < i)) /\
  (approach_matches a date start_date end_date distance_min distance_max
     velocity_min velocity_max = true ->
   raised (query db (create_filters date start_date end_date distance_min
                       distance_max velocity_min velocity_max None None
                       None)) = None /\
   i ∈ yielded (query db (create_filters date start_date end_date
                            distance_min distance_max velocity_min
                            velocity_max None None None))).
Proof.
  intros Hi Hneo. split.
  - intros Hactive. unfold query.
    apply (query_from_raise db _ AttributeError (_approaches db) 0 i a).
    + intros a' _. apply fits_Ok_or_AttributeError.
    + exact Hi.
    + by apply fits_unlinked.
  - intros Hmatch. unfold query.
    assert (Hr : raised (query_from db
                   (create_filters date start_date end_date distance_min
                      distance_max velocity_min velocity_max None None None)
                   (_approaches db) 0) = None).
    { apply query_from_no_raise. intros a' _.
      rewrite fits_approach_level by done. eauto. }
    split; [exact Hr|].
    apply (query_from_complete db _ (_approaches db) 0 i a Hr Hi).
    rewrite fits_approach_level by done. by rewrite Hmatch.
Qed.

(** C2, as the specification words it, fails: the query over an approach
    that was left unlinked, with the [hazardous] criterion given, does not
    pass over the approach, it is stopped by an exception. *)
Lemma C2_unlinked_approach_raises :
  exists db,
    NEODatabase__init__ [eros] [plain_cad "2020 AB"] = Ok db /\
    _approaches db !! 0 = Some (plain_cad "2020 AB") /\
    neo (plain_cad "2020 AB") = None /\
    query db (create_filters None None None None None None None None None
                (Some false))
    = mkstream [] (Some AttributeError).
Proof. eexists. split; [vm_compute; reflexivity|]. by repeat split. Qed.

Lemma C2_unlinked_approach_witness :
  exists db,
    NEODatabase__init__ [eros] [plain_cad "433"; plain_cad "2020 AB"] = Ok db /\
    (raised (query db (create_filters None None None None None None None
                         None None (Some false))) = Some AttributeError /\
     (forall x,
        x ∈ yielded (query db (create_filters None None None None None None
                                 None None None (Some false))) -> x < 1)) /\
    (raised (query db (create_filters None None None None (Some 1%float)
                         None None None None None)) = None /\
     1 ∈ yielded (query db (create_filters None None None None (Some 1%float)
                              None None None None None))).
Proof.
  eexists. split; [vm_compute; reflexivity|]. split.
  - refine (proj1 (C2_unlinked_approach _ 1 (plain_cad "2020 AB")
                     None None None None None None None None None (Some false)
                     _ _) _).
    + reflexivity.
    + reflexivity.
    + right. right. discriminate.
  - refine (proj2 (C2_unlinked_approach _ 1 (plain_cad "2020 AB")
                     None None None None (Some 1%float) None None None None
                     None _ _) _).
    + reflexivity.
    + reflexivity.
    + vm_compute. reflexivity.
Defined.

Lemma C6_diameter_min_subset_witness :
  exists db,
    NEODatabase__init__ [eros] [plain_cad "433"] = Ok db /\
    0 ∈ yielded (query db (create_filters None None None None None None None
                             (Some 1%float) None None)) /\
    0 ∈ yielded (query db (create_filters None None None None None None None
                             None None None)).
Proof.
  eexists. split; [vm_compute; reflexivity|].
  assert (H : 0 ∈ [0]) by (apply elem_of_cons; by left).
  split; [vm_compute; exact H|].
  refine (C6_diameter_min_subset _ 1%float 0 _).
  vm_compute. exact H.
Defined.

(** C7: the three date criteria look at the calendar date of the approach
    only: moving an approach to another time of the same day changes the
    outcome of none of them; and an approach at any time of 1 January 2020,
    08:00 among them, meets the criterion [date] of 1 January 2020. *)
Theorem C7_date_criteria_ignore_time_of_day
    (db : NEODatabase) (a : CloseApproach)
    (date start_date end_date : option datetime.date) (h m s us : Z) :
  fits db (create_filters date start_date end_date None None None None None
             None None) (at_time_of_day a h m s us)
  = fits db (create_filters date start_date end_date None None None None None
               None None) a /\
  (forall op d,
      valid_attribute (_neos db) (at_time_of_day a h m s us) op (PDate d)
        "time"
      = valid_attribute (_neos db) a op (PDate d) "time") /\
  (datetime.date_of (time a) = jan_1_2020 ->
   valid_attribute (_neos db) (at_time_of_day a 8 0 0 0) operator.eq
     (PDate jan_1_2020) "time" = Ok true /\
   valid_attribute (_neos db) (at_time_of_day a h m s us) operator.eq
     (PDate jan_1_2020) "time" = Ok true /\
   fits db (create_filters (Some jan_1_2020) None None None None None None
              None None None) (at_time_of_day a h m s us) = Ok true).
Proof.
  split; [|split].
  - by rewrite !fits_approach_level.
  - reflexivity.
  - intros Hd.
    assert (Heq : forall h' m' s' us',
               valid_attribute (_neos db) (at_time_of_day a h' m' s' us')
                 operator.eq (PDate jan_1_2020) "time" = Ok true).
    { intros. change (Ok (tuple_eqb (date_key (datetime.date_of (time a)))
                            (date_key jan_1_2020)) = Ok true).
      by rewrite Hd. }
    split; [apply Heq|]. split; [apply Heq|].
    rewrite fits_approach_level by done.
    change (Ok (tuple_eqb (date_key (datetime.date_of (time a)))
                  (date_key jan_1_2020) && true) = Ok true).
    by rewrite Hd.
Qed.

Lemma C7_date_criteria_ignore_time_of_day_witness :
  valid_attribute [] (at_time_of_day (plain_cad "433") 8 0 0 0) operator.eq
    (PDate jan_1_2020) "time" = Ok true.
Proof.
  exact (proj1 (proj2 (proj2 (C7_date_criteria_ignore_time_of_day
           (mkNEODatabase [] [] (Dict []) (Dict []) []) (plain_cad "433")
           None None None 23 59 0 0)) eq_refl)).
Defined.

Lemma islice_in_range {A : Type} (iterator : stream A) (stop : Z) :
  (0 <= stop)%Z -> (stop <= sys_maxsize)%Z ->
  exists s, islice iterator stop = Ok s /\
            yielded s = take (Z.to_nat stop) (yielded iterator) /\
            raised s = (if Z.to_nat stop <=? length (yielded iterator)
                        then None else raised iterator).
Proof.
  intros Hlo Hhi. unfold islice.
  destruct (Z.leb_spec 0 stop); [|lia].
  destruct (Z.leb_spec stop sys_maxsize); [|lia]. cbn [andb].
  destruct (Nat.leb_spec (Z.to_nat stop) (length (yielded iterator)))
    as [Hle|Hlt]; eexists; (split; [reflexivity|]); cbn [yielded raised].
  - done.
  - split; [|done]. symmetry. apply take_ge. lia.
Qed.

(** C10: [query] cuts nothing off (with no criterion it yields as many
    approaches as the database holds); [limit] with [n > 0] gives the first
    [n] values of the iterator, all of them when there are fewer; with [n]
    equal to 0 or [None] it gives the first 10. *)
Theorem C10_limit_and_default
    {A : Type} (iterator : stream A) (db : NEODatabase) (n : Z) :
  (0 < n)%Z -> (n <= sys_maxsize)%Z ->
  length (yielded (query db no_filters)) = length (_approaches db) /\
  (exists s, limit iterator (Some n) = Ok s /\
             yielded s = take (Z.to_nat n) (yielded iterator) /\
             length (yielded s) <= Z.to_nat n) /\
  (exists s, limit iterator (Some 0%Z) = Ok s /\
             limit iterator None = Ok s /\
             yielded s = take 10 (yielded iterator)).
Proof.
  intros Hpos Hmax. split; [|split].
  - unfold query. rewrite query_from_no_filters. simpl. apply length_seq.
  - unfold limit. destruct (Z.eqb_spec n 0) as [->|_]; [lia|].
    destruct (islice_in_range iterator n) as (s & Hs & Hy & _);
      [lia | done |].
    exists s. split; [exact Hs|]. split; [exact Hy|].
    rewrite Hy, length_take. lia.
  - destruct (islice_in_range iterator 10) as (s & Hs & Hy & _);
      [lia | done |].
    exists s. split; [exact Hs|]. split; [exact Hs | exact Hy].
Qed.

Lemma C10_limit_and_default_witness :
  exists s, limit (mkstream [1; 2; 3; 4; 5] None) (Some 3%Z) = Ok s /\
            yielded s = [1; 2; 3].
Proof.
  assert (Hpos : (0 < 3)%Z) by reflexivity.
  assert (Hmax : (3 <= sys_maxsize)%Z) by (vm_compute; discriminate).
  destruct (proj1 (proj2 (C10_limit_and_default
              (mkstream [1; 2; 3; 4; 5] None)
              (mkNEODatabase [] [] (Dict []) (Dict []) []) 3
              Hpos Hmax))) as (s & Hs & Hy & _).
  exists s. split; [exact Hs | exact Hy].
Defined.

(** C8: one object, designation 433, name Eros, diameter 16.84, no hazard
    flag, and one approach of designation 433: the object found under "433"
    has one approach; the query for not hazardous yields that approach; the
    query for hazardous yields nothing.  The two parsers are taken as they
    come, provided they read the four strings of the scenario. *)
Theorem C8_scenario
    (float_of_str : string -> result float)
    (cd_to_datetime : string -> result datetime.datetime)
    (d x v : float) (t : datetime.datetime) :
  float_of_str "16.84" = Ok d ->
  float_of_str "0.15" = Ok x ->
  float_of_str "5.0" = Ok v ->
  cd_to_datetime "2020-Jan-01 00:00" = Ok t ->
  exists neo cad db,
    NearEarthObject__init__ float_of_str "433" (Some "Eros") "16.84" ""
      = Ok neo /\
    CloseApproach__init__ float_of_str cd_to_datetime "433"
      "2020-Jan-01 00:00" "0.15" "5.0" None = Ok cad /\
    NEODatabase__init__ [neo] [cad] = Ok db /\
    get_neo_by_designation db "433" = Ok (Some (NeoRef 0)) /\
    (exists n, _neos db !! 0 = Some n /\ same_neo n neo /\
               approaches n = [0] /\ length (approaches n) = 1) /\
    query db (create_filters None None None None None None None None None
                (Some false)) = mkstream [0] None /\
    query db (create_filters None None None None None None None None None
                (Some true)) = mkstream [] None.
Proof.
  intros Hd Hx Hv Ht.
  unfold NearEarthObject__init__, CloseApproach__init__.
  cbn [String.eqb Ascii.eqb Bool.eqb negb ne_empty].
  rewrite Hd, Hx, Hv, Ht. cbn [bind].
  do 3 eexists. split; [reflexivity|]. split; [reflexivity|].
  split; [vm_compute; reflexivity|].
  split; [vm_compute; reflexivity|].
  split; [eexists; split; [reflexivity | by repeat split]|].
  split; vm_compute; reflexivity.
Qed.

Lemma C8_scenario_witness :
  exists db,
    NEODatabase__init__ [eros] [plain_cad "433"] = Ok db /\
    query db (create_filters None None None None None None None None None
                (Some false)) = mkstream [0] None.
Proof.
  destruct (C8_scenario
              (fun s => if String.eqb s "16.84" then Ok 16.75%float
                        else if String.eqb s "0.15" then Ok 0.25%float
                        else Ok 5%float)
              (fun _ => Ok new_year_2020)
              16.75%float 0.25%float 5%float new_year_2020
              eq_refl eq_refl eq_refl eq_refl)
    as (neo & cad & db & Hneo & Hcad & Hdb & _ & _ & Hq & _).
  injection Hneo as <-. injection Hcad as <-.
  exists db. split; [exact Hdb | exact Hq].
Defined.

(** ** Where the code leaves its documentation *)

(** C1, on the objects 433 and 4330 and one approach of 433: the walk of the
    trie of approaches for 4330 passes over the unmatched 0 and ends on the
    entry of 433, so the approach is put in the [approaches] of both objects
    and its [neo] is left on 4330, whose designation is not the one of the
    approach. *)
Theorem C1_approach_linked_to_other_object :
  exists db,
    NEODatabase__init__ [plain_neo "433"; plain_neo "4330"] [plain_cad "433"]
      = Ok db /\
    _designation <$> _approaches db !! 0 = Some "433" /\
    neo <$> _approaches db !! 0 = Some (Some 1) /\
    designation <$> _neos db !! 1 = Some "4330" /\
    approaches <$> _neos db !! 0 = Some [0] /\
    approaches <$> _neos db !! 1 = Some [0].
Proof. eexists. split; [vm_compute; reflexivity|]. by repeat split. Qed.

(** The same walk links an approach whose designation is the designation of
    no object. *)
Lemma unmatched_approach_linked :
  exists db,
    NEODatabase__init__ [plain_neo "4330"] [plain_cad "433"] = Ok db /\
    neo <$> _approaches db !! 0 = Some (Some 0) /\
    approaches <$> _neos db !! 0 = Some [0].
Proof. eexists. split; [vm_compute; reflexivity|]. by repeat split. Qed.

(** C3, on the single object 433: [get_neo_by_designation] passes over the
    characters of the query that the trie does not have, and returns the
    object for "4330" and for "4x3y3", designations of no object. *)
Theorem C3_lookup_passes_over_characters :
  exists db,
    NEODatabase__init__ [plain_neo "433"] [] = Ok db /\
    get_neo_by_designation db "433" = Ok (Some (NeoRef 0)) /\
    get_neo_by_designation db "4330" = Ok (Some (NeoRef 0)) /\
    get_neo_by_designation db "4x3y3" = Ok (Some (NeoRef 0)) /\
    get_neo_by_designation db "34" = Ok None.
Proof. eexists. split; [vm_compute; reflexivity|]. by repeat split. Qed.

(** C4, on one object made from a row with an empty name: its name is
    [None], it is kept in [named_neo_list] because [None != ''], and
    [get_neo_by_name(None)] returns it; the empty string finds nothing. *)
Theorem C4_get_neo_by_name_None_finds_unnamed
    (float_of_str : string -> result float) :
  exists neo db,
    NearEarthObject__init__ float_of_str "2020 AB" (Some "") "" "N" = Ok neo /\
    name neo = None /\
    NEODatabase__init__ [neo] [] = Ok db /\
    named_neo_list db = [0] /\
    get_neo_by_name db None = Some 0 /\
    get_neo_by_name db (Some "") = None.
Proof.
  do 2 eexists. split; [reflexivity|]. split; [reflexivity|].
  split; [vm_compute; reflexivity|]. by repeat split.
Qed.

(** ** The index by designation *)

Section Tries.

Lemma dict_get_set_eq k v items : dict_get k (dict_set k v items) = Some v.
Proof.
  induction items as [|[k' v'] rest IH]; simpl.
  - by rewrite Ascii.eqb_refl.
  - destruct (Ascii.eqb k k') eqn:E; simpl; rewrite E; [done | exact IH].
Qed.

Lemma dict_get_set_ne k k' v items :
  k' <> k -> dict_get k' (dict_set k v items) = dict_get k' items.
Proof.
  intros Hne. induction items as [|[k0 v0] rest IH]; simpl.
  - by rewrite (proj2 (Ascii.eqb_neq k' k)).
  - destruct (Ascii.eqb k k0) eqn:E; simpl.
    + apply Ascii.eqb_eq in E as <-.
      by rewrite (proj2 (Ascii.eqb_neq k' k)).
    + by rewrite IH.
Qed.

(** What the descent by one character does to a node. *)
Lemma descend_inv ch node k node' :
  descend ch node k = Ok node' ->
  exists items items' child',
    node = Dict items /\ node' = Dict items' /\
    k (default (Dict []) (dict_get ch items)) = Ok child' /\
    dict_get ch items' = Some child' /\
    (forall c, c <> ch -> dict_get c items' = dict_get c items).
Proof.
  unfold descend. intros H.
  destruct node as [items|l|r]; simpl in H; try discriminate.
  destruct (dict_get ch items) as [child|] eqn:Hget; simpl in H.
  - rewrite Hget in H. simpl in H.
    destruct (k child) as [child'|e] eqn:Hk; simpl in H; [|discriminate].
    injection H as <-. exists items, (dict_set ch child' items), child'.
    split; [done|]. split; [done|]. split; [by rewrite Hget|]. split.
    + apply dict_get_set_eq.
    + intros c Hc. by apply dict_get_set_ne.
  - rewrite dict_get_set_eq in H. simpl in H.
    destruct (k (Dict [])) as [child'|e] eqn:Hk; simpl in H; [|discriminate].
    injection H as <-.
    exists items, (dict_set ch child' (dict_set ch (Dict []) items)), child'.
    split; [done|]. split; [done|]. split; [by rewrite Hget|]. split.
    + apply dict_get_set_eq.
    + intros c Hc. by rewrite !dict_get_set_ne.
Qed.

(** Along a path that is there, the walk takes every character. *)
Lemma trie_walk_at_path des : forall node v,
  at_path des node v ->
  exists items,
    trie_walk des node = Ok (Dict items) /\ dict_get dollar items = Some v.
Proof.
  induction des as [|ch des IH]; intros node v H; simpl in *.
  - destruct H as (items & -> & Hget). eauto.
  - destruct H as (items & child & -> & Hget & Hpath).
    simpl. rewrite Hget. simpl. by apply IH.
Qed.

Lemma neo_trie_add_at_path des : forall j node node',
  neo_trie_add des j node = Ok node' -> at_path des node' (NeoRef j).
Proof.
  induction des as [|ch des IH]; intros j node node' H; simpl in *.
  - destruct node as [items|l|r]; simpl in H; try discriminate.
    injection H as <-. eexists. split; [done|]. apply dict_get_set_eq.
  - apply descend_inv in H
      as (items & items' & child' & -> & -> & Hk & Hget & _).
    exists items', child'. repeat split; [done|]. by eapply IH.
Qed.

Lemma dollar_free_cons ch des :
  dollar_free (String ch des) = true -> ch <> dollar /\ dollar_free des = true.
Proof.
  simpl. intros [H1 H2]%andb_true_iff. split; [|done].
  intros ->. by rewrite Ascii.eqb_refl in H1.
Qed.

(** Another designation entering the trie leaves the path of [des] as it
    is. *)
Lemma neo_trie_add_other des : forall des2 j node node' v,
  dollar_free des = true -> dollar_free des2 = true -> des <> des2 ->
  at_path des node v ->
  neo_trie_add des2 j node = Ok node' ->
  at_path des node' v.
Proof.
  induction des as [|ch des IH]; intros des2 j node node' v Hd Hd2 Hne Hp Ha.
  - destruct des2 as [|ch2 des2]; [done|].
    apply dollar_free_cons in Hd2 as [Hch2 _]. simpl in *.
    destruct Hp as (items & -> & Hget).
    apply descend_inv in Ha
      as (items0 & items' & child' & [= <-] & -> & _ & _ & Hother).
    exists items'. split; [done|]. rewrite Hother; [done|].
    intros E. by apply Hch2.
  - apply dollar_free_cons in Hd as [Hch Hd]. simpl in Hp.
    destruct Hp as (items & child & -> & Hget & Hp).
    destruct des2 as [|ch2 des2]; simpl in Ha.
    + injection Ha as <-. simpl. exists (dict_set dollar (NeoRef j) items), child.
      split; [done|]. split; [|done]. by rewrite dict_get_set_ne.
    + apply dollar_free_cons in Hd2 as [_ Hd2].
      apply descend_inv in Ha
        as (items0 & items' & child' & [= <-] & -> & Hk & Hnew & Hother).
      simpl. destruct (decide (ch = ch2)) as [<-|Hch2].
      * rewrite Hget in Hk. simpl in Hk.
        exists items', child'. split; [done|]. split; [done|].
        eapply IH; eauto. congruence.
      * exists items', child. split; [done|]. split; [|done].
        by rewrite Hother.
Qed.

Lemma add_neos_at_path todo : forall j self db,
  add_neos todo j self = Ok db ->
  Forall (fun n => dollar_free (designation n) = true) todo ->
  NoDup (designation <$> todo) ->
  (forall des v,
      dollar_free des = true -> des ∉ designation <$> todo ->
      at_path des (neo_trie self) v -> at_path des (neo_trie db) v) /\
  (forall k n,
      todo !! k = Some n ->
      at_path (designation n) (neo_trie db) (NeoRef (j + k))).
Proof.
  induction todo as [|neo rest IH]; intros j self db H Hfree Hdup.
  - simpl in H. injection H as <-. by split.
  - simpl in H. apply bind_Ok in H as (self' & Hstep & H).
    apply add_neo_inv in Hstep as (linked & trie & Htrie & -> & _).
    apply Forall_cons in Hfree as [Hneo Hfree].
    rewrite fmap_cons in Hdup. apply NoDup_cons in Hdup as [Hnotin Hdup].
    destruct (IH _ _ _ H Hfree Hdup) as [Hkeep Hnew]. simpl in Hkeep.
    split.
    + intros des v Hdes Hnin Hp. rewrite fmap_cons in Hnin.
      apply not_elem_of_cons in Hnin as [Hne Hnin].
      apply Hkeep; [done | done |].
      by apply (neo_trie_add_other des (designation neo) j (neo_trie self)).
    + intros [|k] n Hk; simpl in Hk.
      * injection Hk as ->. rewrite Nat.add_0_r.
        apply Hkeep; [done | done |]. by eapply neo_trie_add_at_path.
      * replace (j + S k) with (S j + k) by lia. by apply Hnew.
Qed.

(** Every object of the collection is found under its own designation, when
    the designations are distinct and none uses the end marker ['$']. *)
Lemma get_neo_by_designation_finds neos cads db j n :
  NEODatabase__init__ neos cads = Ok db ->
  Forall (fun n => dollar_free (designation n) = true) neos ->
  NoDup (designation <$> neos) ->
  neos !! j = Some n ->
  get_neo_by_designation db (designation n) = Ok (Some (NeoRef j)).
Proof.
  unfold NEODatabase__init__. intros H Hfree Hdup Hj.
  apply bind_Ok in H as (trie & _ & H).
  destruct (add_neos_at_path _ _ _ _ H Hfree Hdup) as [_ Hnew].
  apply Hnew in Hj. simpl in Hj.
  apply trie_walk_at_path in Hj as (items & Hwalk & Hget).
  unfold get_neo_by_designation. rewrite Hwalk. simpl. by rewrite Hget.
Qed.

End Tries.

(** ** Construction returns *)

Section Totality.

Variable leaf : pyval -> bool.

Lemma wf_trie_Dict node :
  wf_trie leaf node = true -> exists items, node = Dict items.
Proof. destruct node; [eauto | done | done]. Qed.

Lemma wf_trie_get items k v :
  wf_trie leaf (Dict items) = true -> dict_get k items = Some v ->
  (if Ascii.eqb k dollar then leaf v else wf_trie leaf v) = true.
Proof.
  induction items as [|[k0 v0] rest IH]; simpl; [done|].
  intros [H0 Hrest]%andb_true_iff Hget.
  destruct (Ascii.eqb k k0) eqn:E.
  - apply Ascii.eqb_eq in E as ->. by injection Hget as ->.
  - by apply IH.
Qed.

Lemma wf_trie_set items k v :
  wf_trie leaf (Dict items) = true ->
  (if Ascii.eqb k dollar then leaf v else wf_trie leaf v) = true ->
  wf_trie leaf (Dict (dict_set k v items)) = true.
Proof.
  intros Hitems Hv. induction items as [|[k0 v0] rest IH]; simpl in *.
  - by rewrite Hv.
  - apply andb_true_iff in Hitems as [H0 Hrest].
    destruct (Ascii.eqb k k0) eqn:E; simpl.
    + apply Ascii.eqb_eq in E as <-. by rewrite Hv.
    + rewrite H0. by apply IH.
Qed.

Lemma descend_total ch node k :
  wf_trie leaf node = true -> ch <> dollar ->
  (forall child, wf_trie leaf child = true ->
     exists child', k child = Ok child' /\ wf_trie leaf child' = true) ->
  exists node', descend ch node k = Ok node' /\ wf_trie leaf node' = true.
Proof.
  intros Hwf Hch Hk. destruct (wf_trie_Dict _ Hwf) as [items ->].
  assert (Hne : Ascii.eqb ch dollar = false) by by apply Ascii.eqb_neq.
  unfold descend. simpl.
  destruct (dict_get ch items) as [child|] eqn:Hget; simpl.
  - rewrite Hget. simpl.
    pose proof (wf_trie_get _ _ _ Hwf Hget) as Hchild. rewrite Hne in Hchild.
    destruct (Hk child Hchild) as (child' & -> & Hchild'). simpl.
    eexists. split; [done|]. apply wf_trie_set; [done|]. by rewrite Hne.
  - rewrite dict_get_set_eq. simpl.
    destruct (Hk (Dict []) eq_refl) as (child' & -> & Hchild'). simpl.
    eexists. split; [done|]. apply wf_trie_set; [|by rewrite Hne].
    apply wf_trie_set; [done|]. by rewrite Hne.
Qed.

Lemma trie_walk_total des : forall node,
  wf_trie leaf node = true -> dollar_free des = true ->
  exists items,
    trie_walk des node = Ok (Dict items) /\
    wf_trie leaf (Dict items) = true.
Proof.
  induction des as [|ch des IH]; intros node Hwf Hfree.
  - destruct (wf_trie_Dict _ Hwf) as [items ->]. simpl. eauto.
  - apply dollar_free_cons in Hfree as [Hch Hfree].
    destruct (wf_trie_Dict _ Hwf) as [items ->]. simpl.
    destruct (dict_get ch items) as [child|] eqn:Hget; simpl.
    + apply IH; [|done].
      pose proof (wf_trie_get _ _ _ Hwf Hget) as Hchild.
      by rewrite (proj2 (Ascii.eqb_neq ch dollar)) in Hchild.
    + by apply IH.
Qed.

End Totality.

Lemma cad_trie_add_total des : forall i node,
  wf_trie is_CadList node = true -> dollar_free des = true ->
  exists node',
    cad_trie_add des i node = Ok node' /\ wf_trie is_CadList node' = true.
Proof.
  induction des as [|ch des IH]; intros i node Hwf Hfree.
  - destruct (wf_trie_Dict _ _ Hwf) as [items ->]. simpl.
    destruct (dict_get dollar items) as [entry|] eqn:Hget; simpl.
    + pose proof (wf_trie_get _ _ _ _ Hwf Hget) as Hentry. simpl in Hentry.
      destruct entry as [|l|]; try done. simpl.
      eexists. split; [done|]. by apply wf_trie_set.
    + eexists. split; [done|]. by apply wf_trie_set.
  - apply dollar_free_cons in Hfree as [Hch Hfree]. simpl.
    apply descend_total; [done | done |]. intros child Hchild. by apply IH.
Qed.

Lemma neo_trie_add_total des : forall j node,
  wf_trie is_NeoRef node = true -> dollar_free des = true ->
  exists node',
    neo_trie_add des j node = Ok node' /\ wf_trie is_NeoRef node' = true.
Proof.
  induction des as [|ch des IH]; intros j node Hwf Hfree.
  - destruct (wf_trie_Dict _ _ Hwf) as [items ->]. simpl.
    eexists. split; [done|]. by apply wf_trie_set.
  - apply dollar_free_cons in Hfree as [Hch Hfree]. simpl.
    apply descend_total; [done | done |]. intros child Hchild. by apply IH.
Qed.

Lemma add_cads_total todo : forall i trie,
  wf_trie is_CadList trie = true ->
  Forall (fun c => dollar_free (_designation c) = true) todo ->
  exists trie',
    add_cads todo i trie = Ok trie' /\ wf_trie is_CadList trie' = true.
Proof.
  induction todo as [|cad rest IH]; intros i trie Hwf Hfree; simpl.
  - eauto.
  - apply Forall_cons in Hfree as [Hcad Hfree].
    destruct (cad_trie_add_total (_designation cad) i trie Hwf Hcad)
      as (trie1 & -> & Hwf1). simpl. by apply IH.
Qed.

Lemma add_neo_total self j neo :
  wf_trie is_CadList (cad_trie self) = true ->
  wf_trie is_NeoRef (neo_trie self) = true ->
  dollar_free (designation neo) = true ->
  exists self',
    add_neo self j neo = Ok self' /\
    cad_trie self' = cad_trie self /\
    wf_trie is_NeoRef (neo_trie self') = true.
Proof.
  intros Hcad Hneo Hfree. unfold add_neo.
  destruct (trie_walk_total _ _ _ Hcad Hfree) as (items & -> & Hitems).
  simpl.
  destruct (neo_trie_add_total (designation neo) j _ Hneo Hfree)
    as (trie & Htrie & Hwf).
  destruct (dict_get dollar items) as [entry|] eqn:Hget; simpl.
  - pose proof (wf_trie_get _ _ _ _ Hitems Hget) as Hentry. simpl in Hentry.
    destruct entry as [|l|]; try done. simpl. rewrite Htrie. simpl. eauto.
  - rewrite Htrie. simpl. eauto.
Qed.

Lemma add_neos_total todo : forall j self,
  wf_trie is_CadList (cad_trie self) = true ->
  wf_trie is_NeoRef (neo_trie self) = true ->
  Forall (fun n => dollar_free (designation n) = true) todo ->
  exists db, add_neos todo j self = Ok db.
Proof.
  induction todo as [|neo rest IH]; intros j self Hcad Hneo Hfree; simpl.
  - eauto.
  - apply Forall_cons in Hfree as [Hn Hfree].
    destruct (add_neo_total self j neo Hcad Hneo Hn)
      as (self' & -> & Hsame & Hwf). simpl.
    apply IH; [by rewrite Hsame | done | done].
Qed.

(** The constructor returns a database whenever no designation uses the end
    marker ['$'] of the tries. *)
Lemma NEODatabase__init__total neos cads :
  Forall (fun n => dollar_free (designation n) = true) neos ->
  Forall (fun c => dollar_free (_designation c) = true) cads ->
  exists db, NEODatabase__init__ neos cads = Ok db.
Proof.
  intros Hneos Hcads. unfold NEODatabase__init__.
  destruct (add_cads_total cads 0 (Dict []) eq_refl Hcads)
    as (trie & -> & Hwf). simpl.
  by apply add_neos_total.
Qed.

(** A designation with the end marker in it can stop the constructor. *)
Lemma NEODatabase__init__raises :
  NEODatabase__init__ [plain_neo "A"; plain_neo "A$"] []
  = Raise TypeError.
Proof. vm_compute. reflexivity. Qed.

(** ** What linking does to the two stores *)

Section Stores.

Lemma approaches_extend_nil n : approaches_extend [] n = n.
Proof. destruct n. unfold approaches_extend. simpl. by rewrite app_nil_r. Qed.

Lemma lookup_alter_extend l j (neos : list NearEarthObject) p :
  alter (approaches_extend l) j neos !! p
  = if decide (p = j) then approaches_extend l <$> neos !! p else neos !! p.
Proof.
  destruct (decide (p = j)) as [->|Hne].
  - apply list_lookup_alter_eq.
  - by apply list_lookup_alter_ne.
Qed.

Lemma lookup_foldl_set_neo j l : forall (cads : list CloseApproach) i,
  foldl (fun cs i => alter (set_neo j) i cs) cads l !! i
  = if decide (i ∈ l) then set_neo j <$> cads !! i else cads !! i.
Proof.
  induction l as [|i0 l IH]; intros cads i; simpl.
  - destruct (decide (i ∈ [])) as [H|_]; [by apply elem_of_nil in H | done].
  - rewrite IH. destruct (decide (i = i0)) as [->|Hne].
    + rewrite list_lookup_alter_eq.
      destruct (decide (i0 ∈ l)), (decide (i0 ∈ i0 :: l)) as [|Hn];
        try (exfalso; apply Hn; apply elem_of_cons; by left);
        by destruct (cads !! i0).
    + rewrite list_lookup_alter_ne by done.
      destruct (decide (i ∈ l)) as [Hin|Hnin],
               (decide (i ∈ i0 :: l)) as [Hin'|Hnin']; try done.
      * exfalso. apply Hnin'. apply elem_of_cons. by right.
      * apply elem_of_cons in Hin' as [?|?]; done.
Qed.

(** One step of the loop over the near-Earth objects, on the stores: the list
    found by the walk is appended to the [approaches] of the object, and the
    [neo] of every approach in the list is set to the object. *)
Lemma add_neo_stores self j neo self' :
  add_neo self j neo = Ok self' ->
  let l := found_cads (designation neo) (cad_trie self) in
  _neos self' = alter (approaches_extend l) j (_neos self) /\
  _approaches self'
  = foldl (fun cs i => alter (set_neo j) i cs) (_approaches self) l /\
  cad_trie self' = cad_trie self.
Proof.
  unfold add_neo, found_cads. intros H.
  apply bind_Ok in H as (cad_node & Hwalk & H). rewrite Hwalk.
  apply bind_Ok in H as (present & Hpresent & H).
  apply bind_Ok in H as (linked & Hl & H).
  apply bind_Ok in H as (trie & Ht & H).
  injection H as <-. simpl.
  assert (Hid : alter (approaches_extend []) j (_neos self) = _neos self).
  { apply list_alter_id. intros. apply approaches_extend_nil. }
  destruct cad_node as [items|l0|r]; simpl in Hpresent; [| |done].
  - injection Hpresent as <-.
    destruct (dict_get dollar items) as [entry|] eqn:Hget; simpl in Hl.
    + rewrite Hget in Hl. simpl in Hl.
      destruct entry as [[|kv rest]|l|r]; simpl in Hl; try done;
        injection Hl as <-; simpl; by rewrite ?Hid.
    + injection Hl as <-. simpl. by rewrite Hid.
  - injection Hpresent as <-. injection Hl as <-. simpl. by rewrite Hid.
Qed.

Lemma add_neos_stores todo : forall j self db,
  add_neos todo j self = Ok db ->
  length (_neos db) = length (_neos self) /\
  length (_approaches db) = length (_approaches self) /\
  (forall p, p < j \/ j + length todo <= p ->
             _neos db !! p = _neos self !! p) /\
  (forall k neo,
      todo !! k = Some neo ->
      _neos db !! (j + k)
      = approaches_extend (found_cads (designation neo) (cad_trie self))
          <$> _neos self !! (j + k)).
Proof.
  induction todo as [|neo0 rest IH]; intros j self db H; simpl in H.
  - injection H as <-. by repeat split.
  - apply bind_Ok in H as (self' & Hstep & H).
    apply add_neo_stores in Hstep as (Hn & Hc & Ht).
    destruct (IH _ _ _ H) as (Hlen & Hlenc & Hout & Hin).
    rewrite Hn, Hc, Ht in *. clear Hn Hc Ht.
    split; [by rewrite Hlen, length_alter|]. split.
    { rewrite Hlenc. clear. generalize (_approaches self).
      induction (found_cads _ _) as [|i l IHl]; intros cs; simpl; [done|].
      by rewrite IHl, length_alter. }
    split.
    + intros p Hp. simpl in Hp. rewrite Hout by lia.
      rewrite lookup_alter_extend. destruct (decide (p = j)); [lia | done].
    + intros [|k] neo Hk; simpl in Hk.
      * injection Hk as ->. rewrite Nat.add_0_r, Hout by lia.
        rewrite lookup_alter_extend. by destruct (decide (j = j)).
      * replace (j + S k) with (S j + k) by lia. rewrite (Hin k neo Hk).
        rewrite lookup_alter_extend.
        destruct (decide (S j + k = j)); [lia | done].
Qed.

End Stores.

(** ** The trie of close approaches *)

Section CadTrie.

Lemma trie_find_empty des : trie_find des (Dict []) = None.
Proof. by destruct des. Qed.

Lemma trie_find_at_path des : forall node v,
  trie_find des node = Some v -> at_path des node v.
Proof.
  induction des as [|ch des IH]; intros [items|l|r] v H; simpl in *;
    try discriminate.
  - eauto.
  - destruct (dict_get ch items) as [child|] eqn:Hget; [|discriminate].
    exists items, child. repeat split; [done|]. by apply IH.
Qed.

Lemma cad_trie_add_find des : forall i node node',
  cad_trie_add des i node = Ok node' ->
  trie_find des node' = Some (CadList (cads_at des node ++ [i])).
Proof.
  unfold cads_at. induction des as [|ch des IH]; intros i node node' H.
  - destruct node as [items|l|r]; simpl in H; try discriminate.
    simpl. destruct (dict_get dollar items) as [entry|] eqn:Hget;
      simpl in H.
    + destruct entry as [|l|]; try discriminate. injection H as <-.
      simpl. by rewrite dict_get_set_eq.
    + injection H as <-. simpl. by rewrite dict_get_set_eq.
  - simpl in H. apply descend_inv in H
      as (items & items' & child' & -> & -> & Hk & Hget & _).
    simpl. rewrite Hget. rewrite (IH _ _ _ Hk).
    destruct (dict_get ch items) as [child|]; simpl; [done|].
    by rewrite trie_find_empty.
Qed.

Lemma cad_trie_add_find_other des : forall des2 i node node',
  dollar_free des = true -> dollar_free des2 = true -> des <> des2 ->
  cad_trie_add des2 i node = Ok node' ->
  trie_find des node' = trie_find des node.
Proof.
  induction des as [|ch des IH]; intros des2 i node node' Hd Hd2 Hne Ha.
  - destruct des2 as [|ch2 des2]; [done|].
    apply dollar_free_cons in Hd2 as [Hch2 _]. simpl in Ha.
    apply descend_inv in Ha
      as (items & items' & child' & -> & -> & _ & _ & Hother).
    simpl. apply Hother. intros E. by apply Hch2.
  - apply dollar_free_cons in Hd as [Hch Hd].
    destruct des2 as [|ch2 des2].
    + destruct node as [items|l|r]; simpl in Ha; try discriminate.
      assert (exists v, node' = Dict (dict_set dollar v items)) as [v ->].
      { destruct (dict_get dollar items) as [entry|] eqn:Hget; simpl in Ha.
        - destruct entry as [|l|]; try discriminate.
          injection Ha as <-. eauto.
        - injection Ha as <-. eauto. }
      simpl. by rewrite dict_get_set_ne.
    + apply dollar_free_cons in Hd2 as [_ Hd2]. simpl in Ha.
      apply descend_inv in Ha
        as (items & items' & child' & -> & -> & Hk & Hnew & Hother).
      simpl. destruct (decide (ch = ch2)) as [<-|Hch2].
      * rewrite Hnew. assert (Hne' : des <> des2) by congruence.
        rewrite (IH _ _ _ _ Hd Hd2 Hne' Hk).
        destruct (dict_get ch items); simpl; [done|].
        apply trie_find_empty.
      * by rewrite Hother.
Qed.

Lemma add_cads_find des todo : forall i trie trie',
  add_cads todo i trie = Ok trie' ->
  dollar_free des = true ->
  Forall (fun c => dollar_free (_designation c) = true) todo ->
  trie_find des trie'
  = match matching_refs des todo i with
    | [] => trie_find des trie
    | l => Some (CadList (cads_at des trie ++ l))
    end.
Proof.
  induction todo as [|cad rest IH]; intros i trie trie' H Hdes Hfree;
    simpl in H.
  - by injection H as <-.
  - apply bind_Ok in H as (trie1 & Hadd & H).
    apply Forall_cons in Hfree as [Hcad Hfree].
    rewrite (IH _ _ _ H Hdes Hfree). simpl.
    destruct (String.eqb_spec (_designation cad) des) as [<-|Hne].
    + pose proof (cad_trie_add_find _ _ _ _ Hadd) as Hfind.
      unfold cads_at at 1. rewrite Hfind.
      destruct (matching_refs _ rest (S i)); [done|].
      by rewrite <- app_assoc.
    + assert (Hne' : des <> _designation cad) by congruence.
      pose proof (cad_trie_add_find_other _ _ _ _ _ Hdes Hcad Hne' Hadd)
        as Hsame.
      unfold cads_at. by rewrite Hsame.
Qed.

Lemma elem_of_matching_refs des todo : forall i x,
  x ∈ matching_refs des todo i <->
  exists k c, x = i + k /\ todo !! k = Some c /\ _designation c = des.
Proof.
  induction todo as [|cad rest IH]; intros i x; simpl.
  - split; [by intros ?%elem_of_nil | by intros (k & c & _ & ? & _)].
  - destruct (String.eqb_spec (_designation cad) des) as [Heq|Hne].
    + rewrite elem_of_cons, IH. split.
      * intros [-> | (k & c & -> & Hk & Hc)].
        -- exists 0, cad. by rewrite Nat.add_0_r.
        -- exists (S k), c. repeat split; [lia | done | done].
      * intros ([|k] & c & -> & Hk & Hc).
        -- left. lia.
        -- right. exists k, c. repeat split; [lia | done | done].
    + rewrite IH. split.
      * intros (k & c & -> & Hk & Hc).
        exists (S k), c. repeat split; [lia | done | done].
      * intros ([|k] & c & -> & Hk & Hc); simpl in Hk.
        -- congruence.
        -- exists k, c. repeat split; [lia | done | done].
Qed.

(** The walk for a designation that some approach bears finds exactly the
    approaches that bear it, in the order of the collection. *)
Lemma found_cads_matching des cads trie :
  add_cads cads 0 (Dict []) = Ok trie ->
  dollar_free des = true ->
  Forall (fun c => dollar_free (_designation c) = true) cads ->
  matching_refs des cads 0 <> [] ->
  found_cads des trie = matching_refs des cads 0.
Proof.
  intros Hadd Hdes Hfree Hne.
  pose proof (add_cads_find des _ _ _ _ Hadd Hdes Hfree) as Hfind.
  destruct (matching_refs des cads 0) as [|i l] eqn:Hm; [done|].
  unfold cads_at in Hfind. rewrite trie_find_empty in Hfind. simpl in Hfind.
  apply trie_find_at_path, trie_walk_at_path in Hfind
    as (items & Hwalk & Hget).
  unfold found_cads. by rewrite Hwalk, Hget.
Qed.

End CadTrie.

(** ** The links after construction *)

Section Links.

Lemma add_neos_cads todo : forall j self db,
  add_neos todo j self = Ok db ->
  (forall i,
      _approaches db !! i = _approaches self !! i \/
      exists j' c, j <= j' < j + length todo /\
                   _approaches self !! i = Some c /\
                   _approaches db !! i = Some (set_neo j' c)) /\
  (forall k neo i c,
      todo !! k = Some neo ->
      i ∈ found_cads (designation neo) (cad_trie self) ->
      _approaches self !! i = Some c ->
      exists j', j + k <= j' < j + length todo /\
                 _approaches db !! i = Some (set_neo j' c)).
Proof.
  induction todo as [|neo0 rest IH]; intros j self db H; simpl in H.
  - injection H as <-. split; [by left | done].
  - apply bind_Ok in H as (self' & Hstep & H).
    apply add_neo_stores in Hstep as (_ & Hc & Ht).
    destruct (IH _ _ _ H) as (Hany & Hin). rewrite Ht in Hin.
    assert (Hone : forall i,
      _approaches self' !! i = _approaches self !! i \/
      exists c, i ∈ found_cads (designation neo0) (cad_trie self) /\
                _approaches self !! i = Some c /\
                _approaches self' !! i = Some (set_neo j c)).
    { intros i. rewrite Hc, lookup_foldl_set_neo.
      destruct (decide (i ∈ _)) as [Hi|Hi]; [|by left].
      destruct (_approaches self !! i) as [c|] eqn:E; [|by left].
      right. by exists c. }
    assert (Hall : forall i,
      _approaches db !! i = _approaches self !! i \/
      exists j' c, j <= j' < j + length (neo0 :: rest) /\
                   _approaches self !! i = Some c /\
                   _approaches db !! i = Some (set_neo j' c)).
    { intros i. simpl.
      destruct (Hany i) as [E | (j' & c1 & Hj' & E1 & E2)];
        destruct (Hone i) as [E' | (c & _ & Ec & E')].
      - left. congruence.
      - right. exists j, c. rewrite E, E'. repeat split; [lia | lia | done].
      - right. exists j', c1. rewrite <- E'. repeat split; [lia | lia | |];
          done.
      - right. exists j', c. rewrite E' in E1. injection E1 as <-.
        repeat split; [lia | lia | done | done]. }
    split; [exact Hall|].
    intros [|k] neo i c Hk Hi Hci; simpl in Hk.
    + injection Hk as ->.
      assert (E' : _approaches self' !! i = Some (set_neo j c)).
      { rewrite Hc, lookup_foldl_set_neo, Hci.
        by destruct (decide (i ∈ _)). }
      destruct (Hany i) as [E | (j' & c1 & Hj' & E1 & E2)].
      * exists j. rewrite E, E'. simpl. split; [lia | done].
      * exists j'. rewrite E' in E1. injection E1 as <-. simpl.
        split; [lia | done].
    + destruct (Hone i) as [E' | (c0 & _ & Ec & E')].
      * rewrite <- E' in Hci.
        destruct (Hin k neo i c Hk Hi Hci) as (j' & Hj' & E).
        exists j'. simpl. split; [lia | done].
      * rewrite Hci in Ec. injection Ec as <-.
        destruct (Hin k neo i _ Hk Hi E') as (j' & Hj' & E).
        exists j'. simpl. split; [lia | done].
Qed.

Lemma add_neo_back_linked self j neo self' :
  add_neo self j neo = Ok self' ->
  j < length (_neos self) ->
  back_linked (_neos self) (_approaches self) ->
  back_linked (_neos self') (_approaches self').
Proof.
  intros H Hj Hinv. apply add_neo_stores in H as (Hn & Hc & _).
  rewrite Hn, Hc. intros i c' j' Hi Hneo.
  rewrite lookup_foldl_set_neo in Hi. rewrite lookup_alter_extend.
  destruct (lookup_lt_is_Some_2 _ _ Hj) as [nj Hnj].
  destruct (decide (i ∈ _)) as [Hin|Hnin].
  - destruct (_approaches self !! i) as [c|]; [|done].
    injection Hi as <-. simpl in Hneo. injection Hneo as <-.
    destruct (decide (j = j)); [|done]. rewrite Hnj. simpl.
    eexists. split; [done|]. simpl. apply elem_of_app. by right.
  - destruct (Hinv i c' j' Hi Hneo) as (n & Hn' & Hin').
    destruct (decide (j' = j)) as [->|_]; [|eauto].
    rewrite Hn'. simpl. eexists. split; [done|]. simpl.
    apply elem_of_app. by left.
Qed.

Lemma add_neos_back_linked todo : forall j self db,
  add_neos todo j self = Ok db ->
  j + length todo <= length (_neos self) ->
  back_linked (_neos self) (_approaches self) ->
  back_linked (_neos db) (_approaches db).
Proof.
  induction todo as [|neo rest IH]; intros j self db H Hlen Hinv;
    simpl in *.
  - by injection H as <-.
  - apply bind_Ok in H as (self' & Hstep & H).
    pose proof (add_neo_back_linked _ _ _ _ Hstep ltac:(lia) Hinv) as Hinv'.
    apply add_neo_stores in Hstep as (Hn & _ & _).
    apply (IH _ _ _ H); [|done]. rewrite Hn, length_alter. lia.
Qed.

End Links.

(** ** Further properties of the database *)

(** X1: when the designations of the collection are distinct and none uses
    the end marker ['$'], [get_neo_by_designation] finds every object of the
    collection under its own designation. *)
Theorem X1_designation_index_complete
    (neos : list NearEarthObject) (cads : list CloseApproach)
    (db : NEODatabase) (j : nat) (n : NearEarthObject) :
  NEODatabase__init__ neos cads = Ok db ->
  Forall (fun n => dollar_free (designation n) = true) neos ->
  NoDup (designation <$> neos) ->
  neos !! j = Some n ->
  get_neo_by_designation db (designation n) = Ok (Some (NeoRef j)) /\
  (exists n', _neos db !! j = Some n' /\ same_neo n' n).
Proof.
  intros Hinit Hfree Hdup Hj. split.
  - by eapply get_neo_by_designation_finds.
  - apply init_same in Hinit as (Hn & _ & _).
    destruct (Forall2_lookup_r _ _ _ _ _ Hn Hj) as (n' & Hn' & Hsame). eauto.
Qed.

Lemma X1_designation_index_complete_witness :
  exists db,
    NEODatabase__init__ [eros; eros_again; plain_neo "1036"]
      [plain_cad "433"] = Ok db /\
    get_neo_by_designation db "2020 AB" = Ok (Some (NeoRef 1)).
Proof.
  eexists. split; [vm_compute; reflexivity|].
  refine (proj1 (X1_designation_index_complete
                   [eros; eros_again; plain_neo "1036"] [plain_cad "433"]
                   _ 1 eros_again _ _ _ _)).
  - vm_compute. reflexivity.
  - repeat constructor.
  - refine (bool_decide_unpack _ _). vm_compute. exact I.
  - reflexivity.
Defined.

(** X2: the constructor raises nothing and returns a database whenever no
    designation, of an object or of an approach, contains the character
    ['$']. *)
Theorem X2_constructor_returns
    (neos : list NearEarthObject) (cads : list CloseApproach) :
  Forall (fun n => dollar_free (designation n) = true) neos ->
  Forall (fun c => dollar_free (_designation c) = true) cads ->
  exists db, NEODatabase__init__ neos cads = Ok db.
Proof. apply NEODatabase__init__total. Qed.

Lemma X2_constructor_returns_witness :
  exists db,
    NEODatabase__init__ [eros; plain_neo "2020 AB"]
      [plain_cad "433"; plain_cad "2019 XY"] = Ok db.
Proof.
  apply X2_constructor_returns; repeat constructor.
Defined.

(** X3: construction changes nothing of an object but its [approaches],
    which it only extends, and nothing of an approach but its [neo], which
    it leaves as it was or sets to an object of the collection; both
    collections keep their length and order. *)
Theorem X3_construction_keeps_data
    (neos : list NearEarthObject) (cads : list CloseApproach)
    (db : NEODatabase) :
  NEODatabase__init__ neos cads = Ok db ->
  Forall2 same_neo (_neos db) neos /\
  Forall2 same_approach (_approaches db) cads /\
  (forall j n n', neos !! j = Some n -> _neos db !! j = Some n' ->
                  exists l, approaches n' = approaches n ++ l) /\
  (forall i c c', cads !! i = Some c -> _approaches db !! i = Some c' ->
                  neo c' = neo c \/
                  exists j, neo c' = Some j /\ j < length neos).
Proof.
  intros Hinit. destruct (init_same _ _ _ Hinit) as (Hn & Hc & _).
  split; [done|]. split; [done|].
  unfold NEODatabase__init__ in Hinit.
  apply bind_Ok in Hinit as (trie & _ & H).
  destruct (add_neos_stores _ _ _ _ H) as (_ & _ & _ & Hin).
  destruct (add_neos_cads _ _ _ _ H) as (Hany & _). simpl in *. split.
  - intros j n n' Hj Hj'. rewrite (Hin j n Hj), Hj in Hj'.
    injection Hj' as <-. simpl. eauto.
  - intros i c c' Hi Hi'.
    destruct (Hany i) as [E | (j' & c0 & Hj' & E1 & E2)].
    + left. congruence.
    + right. exists j'. rewrite Hi' in E2. injection E2 as ->.
      split; [done | lia].
Qed.

Lemma X3_construction_keeps_data_witness :
  exists db,
    NEODatabase__init__ [eros] [plain_cad "433"] = Ok db /\
    Forall2 same_neo (_neos db) [eros].
Proof.
  eexists. split; [vm_compute; reflexivity|].
  exact (proj1 (X3_construction_keeps_data [eros] [plain_cad "433"] _
                  eq_refl)).
Defined.

(** X4: after the construction from approaches that had no [neo], an
    approach whose [neo] is set is in the [approaches] of the object its
    [neo] refers to. *)
Theorem X4_neo_lists_its_approach
    (neos : list NearEarthObject) (cads : list CloseApproach)
    (db : NEODatabase) (i : nat) (c : CloseApproach) (j : nat) :
  NEODatabase__init__ neos cads = Ok db ->
  Forall (fun c => neo c = None) cads ->
  _approaches db !! i = Some c -> neo c = Some j ->
  exists n, _neos db !! j = Some n /\ i ∈ approaches n.
Proof.
  intros Hinit Hnone Hi Hj. unfold NEODatabase__init__ in Hinit.
  apply bind_Ok in Hinit as (trie & _ & H).
  apply add_neos_back_linked in H; [by apply (H i c j) | simpl; lia |].
  simpl. intros i' c' j' Hi' Hj'.
  apply list_elem_of_lookup_2 in Hi'.
  rewrite Forall_forall in Hnone. rewrite (Hnone _ Hi') in Hj'. done.
Qed.

Lemma X4_neo_lists_its_approach_witness :
  exists db n,
    NEODatabase__init__ [plain_neo "433"; plain_neo "4330"]
      [plain_cad "433"] = Ok db /\
    _neos db !! 1 = Some n /\ 0 ∈ approaches n.
Proof.
  eexists.
  assert (Hinit : NEODatabase__init__ [plain_neo "433"; plain_neo "4330"]
                    [plain_cad "433"] = Ok ?[db])
    by (vm_compute; reflexivity).
  destruct (X4_neo_lists_its_approach _ _ _ 0 (set_neo 1 (plain_cad "433")) 1
              Hinit ltac:(repeat constructor) eq_refl eq_refl)
    as (n & Hn & Hin).
  exists n. by repeat split.
Defined.

(** X5: when no designation of an approach contains ['$'], an object whose
    designation is borne by at least one approach receives exactly the
    approaches that bear it, in the order of the collection, appended to its
    [approaches]; and each of these approaches has its [neo] set. *)
Theorem X5_matching_approaches_linked
    (neos : list NearEarthObject) (cads : list CloseApproach)
    (db : NEODatabase) (j : nat) (n : NearEarthObject) :
  NEODatabase__init__ neos cads = Ok db ->
  Forall (fun c => dollar_free (_designation c) = true) cads ->
  neos !! j = Some n ->
  dollar_free (designation n) = true ->
  (exists i c, cads !! i = Some c /\ _designation c = designation n) ->
  (exists n', _neos db !! j = Some n' /\
              approaches n'
              = approaches n ++ matching_refs (designation n) cads 0) /\
  (forall i c, cads !! i = Some c -> _designation c = designation n ->
               i ∈ matching_refs (designation n) cads 0 /\
               exists c' j', _approaches db !! i = Some c' /\
                             neo c' = Some j').
Proof.
  intros Hinit Hfree Hj Hdes (i0 & c0 & Hi0 & Hc0).
  unfold NEODatabase__init__ in Hinit.
  apply bind_Ok in Hinit as (trie & Htrie & H).
  assert (Hne : matching_refs (designation n) cads 0 <> []).
  { intros E.
    assert (Hin : i0 ∈ matching_refs (designation n) cads 0)
      by (apply elem_of_matching_refs; exists i0, c0; by repeat split).
    rewrite E in Hin. by apply elem_of_nil in Hin. }
  pose proof (found_cads_matching _ _ _ Htrie Hdes Hfree Hne) as Hfound.
  destruct (add_neos_stores _ _ _ _ H) as (_ & _ & _ & Hin).
  destruct (add_neos_cads _ _ _ _ H) as (_ & Hset). simpl in *. split.
  - rewrite (Hin j n Hj), Hj. simpl. eexists. split; [done|].
    simpl. by rewrite Hfound.
  - intros i c Hi Hc.
    assert (Hmem : i ∈ matching_refs (designation n) cads 0)
      by (apply elem_of_matching_refs; exists i, c; by repeat split).
    split; [exact Hmem|].
    rewrite <- Hfound in Hmem.
    destruct (Hset j n i c Hj Hmem Hi) as (j' & _ & E).
    exists (set_neo j' c), j'. by split.
Qed.

Lemma X5_matching_approaches_linked_witness :
  exists db n',
    NEODatabase__init__ [plain_neo "433"; plain_neo "4330"]
      [plain_cad "433"; plain_cad "2020 AB"; plain_cad "433"] = Ok db /\
    _neos db !! 0 = Some n' /\ approaches n' = [0; 2].
Proof.
  eexists.
  assert (Hinit : NEODatabase__init__ [plain_neo "433"; plain_neo "4330"]
                    [plain_cad "433"; plain_cad "2020 AB"; plain_cad "433"]
                  = Ok ?[db])
    by (vm_compute; reflexivity).
  destruct (proj1 (X5_matching_approaches_linked _ _ _ 0 (plain_neo "433")
              Hinit ltac:(repeat constructor) eq_refl eq_refl
              ltac:(by exists 0, (plain_cad "433"))))
    as (n' & Hn' & Happ).
  exists n'. by repeat split.
Defined.

(** X6: whatever the collection, [get_neo_by_name] finds no object under the
    empty string. *)
Theorem X6_no_object_under_empty_name
    (neos : list NearEarthObject) (cads : list CloseApproach)
    (db : NEODatabase) :
  NEODatabase__init__ neos cads = Ok db ->
  get_neo_by_name db (Some "") = None.
Proof. apply get_neo_by_name_empty_string. Qed.

Lemma X6_no_object_under_empty_name_witness :
  exists db,
    NEODatabase__init__
      [mkNearEarthObject "2020 AB" (Some "") nan false []; eros] [] = Ok db /\
    get_neo_by_name db (Some "") = None.
Proof.
  eexists. split; [vm_compute; reflexivity|].
  exact (X6_no_object_under_empty_name
           [mkNearEarthObject "2020 AB" (Some "") nan false []; eros] [] _
           eq_refl).
Defined.

Lemma named_refs_all todo : forall j,
  Forall (fun n => ne_empty (name n) = true) todo ->
  named_refs todo j = seq j (length todo).
Proof.
  induction todo as [|neo rest IH]; intros j Hall; simpl; [done|].
  apply Forall_cons in Hall as [-> Hall]. by rewrite IH.
Qed.

Lemma NearEarthObject__init__name float_of_str d nm dia h n :
  NearEarthObject__init__ float_of_str d nm dia h = Ok n ->
  ne_empty (name n) = true /\ approaches n = [] /\ designation n = d.
Proof.
  unfold NearEarthObject__init__. intros H.
  apply bind_Ok in H as (dia' & _ & H). injection H as <-. simpl.
  split; [|done]. by destruct (ne_empty nm) eqn:E.
Qed.

(** X7: for a collection of objects made by [NearEarthObject.__init__], which
    turns the empty name into [None], the test [neo.name != ''] of the
    database holds of every object: [named_neo_list] is the whole
    collection, in its order. *)
Theorem X7_named_neo_list_is_the_collection
    (neos : list NearEarthObject) (cads : list CloseApproach)
    (db : NEODatabase) :
  Forall (fun n => exists float_of_str d nm dia h,
              NearEarthObject__init__ float_of_str d nm dia h = Ok n) neos ->
  NEODatabase__init__ neos cads = Ok db ->
  named_neo_list db = seq 0 (length neos).
Proof.
  intros Hmade Hinit. apply init_same in Hinit as (_ & _ & ->).
  apply named_refs_all. eapply Forall_impl; [exact Hmade|].
  intros n (f & d & nm & dia & h & Hn).
  by apply NearEarthObject__init__name in Hn as (? & _).
Qed.

Lemma X7_named_neo_list_is_the_collection_witness :
  exists db,
    NEODatabase__init__ [plain_neo "2020 AB"; eros] [] = Ok db /\
    named_neo_list db = [0; 1].
Proof.
  eexists. split; [vm_compute; reflexivity|].
  refine (X7_named_neo_list_is_the_collection
            [plain_neo "2020 AB"; eros] [] _ _ eq_refl).
  repeat constructor.
  - exists (fun _ => Ok nan), "2020 AB", (Some ""), "", "N". reflexivity.
  - exists (fun _ => Ok 16.75%float), "433", (Some "Eros"), "16.75", "N".
    reflexivity.
Defined.

Lemma scan_names_result nm todo : forall j acc,
  match scan_names nm todo j acc with
  | Some r =>
      acc = Some r \/
      exists k n, r = j + k /\ todo !! k = Some n /\ name n = nm /\
                  ne_empty (name n) = true
  | None =>
      acc = None /\
      forall n, n ∈ todo -> name n = nm -> ne_empty (name n) = false
  end.
Proof.
  induction todo as [|neo rest IH]; intros j acc; simpl.
  - destruct acc; [by left|]. split; [done|]. by intros n ?%elem_of_nil.
  - specialize (IH (S j)
      (if ne_empty (name neo) && bool_decide (name neo = nm)
       then Some j else acc)).
    destruct (scan_names nm rest (S j) _) as [r|].
    + destruct IH as [E | (k & n & -> & Hk & Hn & Hne)].
      * destruct (ne_empty (name neo)) eqn:Hne; simpl in E; [|by left].
        destruct (bool_decide_reflect (name neo = nm)) as [Hnm|_];
          [|by left].
        injection E as <-. right. exists 0, neo.
        by rewrite Nat.add_0_r.
      * right. exists (S k), n. repeat split; [lia | done | done | done].
    + destruct IH as [E Hall].
      destruct (ne_empty (name neo)) eqn:Hne; simpl in E.
      * destruct (bool_decide_reflect (name neo = nm)) as [Hnm|Hnm];
          [done|].
        split; [done|]. intros n [->|Hn]%elem_of_cons Hname; [done|].
        by apply Hall.
      * split; [done|]. intros n [->|Hn]%elem_of_cons Hname; [done|].
        by apply Hall.
Qed.

(** X8: an object that [get_neo_by_name] returns bears the name asked for;
    and [None] is returned only when no object bears it (the name asked for
    being a string other than the empty one, or [None]). *)
Theorem X8_get_neo_by_name_result
    (neos : list NearEarthObject) (cads : list CloseApproach)
    (db : NEODatabase) (nm : option string) :
  NEODatabase__init__ neos cads = Ok db ->
  nm <> Some "" ->
  match get_neo_by_name db nm with
  | Some j => exists n, neos !! j = Some n /\ name n = nm
  | None => forall n, n ∈ neos -> name n <> nm
  end.
Proof.
  intros Hinit Hnm. rewrite (get_neo_by_name_scan _ _ _ _ Hinit).
  pose proof (scan_names_result nm neos 0 None) as H.
  destruct (scan_names nm neos 0 None) as [j|].
  - destruct H as [E | (k & n & -> & Hk & Hn & _)]; [done|]. eauto.
  - destruct H as [_ Hall]. intros n Hin Hname.
    specialize (Hall n Hin Hname). rewrite Hname in Hall.
    destruct nm as [s|]; simpl in Hall; [|done].
    destruct (String.eqb_spec s ""); [congruence | done].
Qed.

Lemma X8_get_neo_by_name_result_witness :
  exists db,
    NEODatabase__init__ [eros; plain_neo "1036"] [] = Ok db /\
    get_neo_by_name db (Some "Ganymed") = None.
Proof.
  eexists. split; [vm_compute; reflexivity|].
  pose proof (X8_get_neo_by_name_result [eros; plain_neo "1036"] [] _
                (Some "Ganymed") eq_refl ltac:(discriminate)) as H.
  destruct (get_neo_by_name _ (Some "Ganymed")) as [j|]; [|done].
  exfalso. destruct H as (n & Hj & Hn).
  destruct j as [|[|j]]; simpl in Hj; try discriminate;
    injection Hj as <-; discriminate.
Defined.

(** ** Further properties of [query] *)

(** X9: whatever the filters, a dictionary of any shape, [query] yields
    approaches of the database in the order of the collection, and none
    twice. *)
Theorem X9_query_keeps_order (db : NEODatabase) (filters : filter_dict) :
  sublist (yielded (query db filters)) (seq 0 (length (_approaches db))) /\
  NoDup (yielded (query db filters)).
Proof.
  assert (H : sublist (yielded (query db filters))
                (seq 0 (length (_approaches db))))
    by apply query_from_sublist.
  split; [exact H|]. eapply sublist_NoDup; [apply NoDup_seq | exact H].
Qed.

Lemma fits_linked self a j n
    date start_date end_date distance_min distance_max velocity_min
    velocity_max diameter_min diameter_max hazardous :
  neo a = Some j -> _neos self !! j = Some n ->
  fits self (create_filters date start_date end_date distance_min
               distance_max velocity_min velocity_max diameter_min
               diameter_max hazardous) a
  = Ok (neo_matches n diameter_min diameter_max hazardous &&
        approach_matches a date start_date end_date distance_min
          distance_max velocity_min velocity_max).
Proof.
  intros Hneo Hn. rewrite fits_spec. unfold approach_neo.
  rewrite Hneo, Hn. unfold neo_matches, asks_neo, asks.
  destruct diameter_min, diameter_max, hazardous; cbn [bind];
    f_equal; rewrite ?andb_true_l, ?andb_true_r, ?andb_assoc; reflexivity.
Qed.

Lemma query_linked_spec
    (db : NEODatabase)
    (date start_date end_date : option datetime.date)
    (distance_min distance_max velocity_min velocity_max
     diameter_min diameter_max : option float)
    (hazardous : option bool) :
  (forall a, a ∈ _approaches db ->
             exists j n, neo a = Some j /\ _neos db !! j = Some n) ->
  raised (query db (create_filters date start_date end_date distance_min
                      distance_max velocity_min velocity_max diameter_min
                      diameter_max hazardous)) = None /\
  (forall i,
      i ∈ yielded (query db (create_filters date start_date end_date
                               distance_min distance_max velocity_min
                               velocity_max diameter_min diameter_max
                               hazardous)) <->
      exists a j n,
        _approaches db !! i = Some a /\ neo a = Some j /\
        _neos db !! j = Some n /\
        approach_matches a date start_date end_date distance_min
          distance_max velocity_min velocity_max = true /\
        neo_matches n diameter_min diameter_max hazardous = true).
Proof.
  intros Hlinked. unfold query.
  assert (Hr : raised (query_from db
                 (create_filters date start_date end_date distance_min
                    distance_max velocity_min velocity_max diameter_min
                    diameter_max hazardous) (_approaches db) 0) = None).
  { apply query_from_no_raise. intros a Ha.
    destruct (Hlinked a Ha) as (j & n & Hj & Hn).
    rewrite (fits_linked _ _ _ _ _ _ _ _ _ _ _ _ _ _ Hj Hn). eauto. }
  split; [exact Hr|]. intros i. split.
  - intros (k & a & -> & Hk & Hfits)%query_from_elem.
    destruct (Hlinked a (list_elem_of_lookup_2 _ _ _ Hk))
      as (j & n & Hj & Hn).
    rewrite (fits_linked _ _ _ _ _ _ _ _ _ _ _ _ _ _ Hj Hn) in Hfits.
    injection Hfits as [H1 H2]%andb_true_iff.
    exists a, j, n. by repeat split.
  - intros (a & j & n & Hi & Hj & Hn & Ha & Hm).
    apply (query_from_complete db _ (_approaches db) 0 i a Hr Hi).
    by rewrite (fits_linked _ _ _ _ _ _ _ _ _ _ _ _ _ _ Hj Hn), Ha, Hm.
Qed.

(** X10: in a database all of whose approaches are linked, [query] raises
    nothing and yields exactly the approaches that meet every criterion that
    was given, those on the approach and those on its object. *)
Theorem X10_query_yields_the_matches
    (db : NEODatabase)
    (date start_date end_date : option datetime.date)
    (distance_min distance_max velocity_min velocity_max
     diameter_min diameter_max : option float)
    (hazardous : option bool) :
  (forall a, a ∈ _approaches db ->
             exists j n, neo a = Some j /\ _neos db !! j = Some n) ->
  raised (query db (create_filters date start_date end_date distance_min
                      distance_max velocity_min velocity_max diameter_min
                      diameter_max hazardous)) = None /\
  (forall i,
      i ∈ yielded (query db (create_filters date start_date end_date
                               distance_min distance_max velocity_min
                               velocity_max diameter_min diameter_max
                               hazardous)) <->
      exists a j n,
        _approaches db !! i = Some a /\ neo a = Some j /\
        _neos db !! j = Some n /\
        approach_matches a date start_date end_date distance_min
          distance_max velocity_min velocity_max = true /\
        neo_matches n diameter_min diameter_max hazardous = true).
Proof. apply query_linked_spec. Qed.

Lemma X10_query_yields_the_matches_witness :
  raised (query linked_eros_db
            (create_filters None None None None (Some 1%float) None None
               (Some 10%float) None (Some false))) = None.
Proof.
  refine (proj1 (X10_query_yields_the_matches linked_eros_db
                   None None None None (Some 1%float) None None
                   (Some 10%float) None (Some false) _)).
  intros a Ha. exists 0, eros.
  apply elem_of_cons in Ha as [-> | Ha]; [done|].
  apply elem_of_cons in Ha as [-> | Ha]; [done|].
  by apply elem_of_nil in Ha.
Defined.

(** X11: [query] called with no argument has the empty dictionary for its
    filters: like any dictionary without the key ['date'], it makes the
    first test of the first approach raise [KeyError], so nothing is
    yielded; only a database with no approach at all is spared, whatever the
    dictionary. *)
Theorem X11_query_without_argument
    (db : NEODatabase) (filters : filter_dict) :
  (_approaches db <> [] ->
   filters_getitem filters "date" = Raise KeyError ->
   query db filters = mkstream [] (Some KeyError)) /\
  (_approaches db = [] -> query db filters = mkstream [] None).
Proof.
  unfold query. split.
  - intros Hne Hkey. destruct (_approaches db) as [|a rest]; [done|].
    simpl. unfold fits, criterion. by rewrite Hkey.
  - by intros ->.
Qed.

Lemma X11_query_without_argument_witness :
  exists db,
    NEODatabase__init__ [eros] [plain_cad "433"] = Ok db /\
    query db [] = mkstream [] (Some KeyError).
Proof.
  eexists. split; [vm_compute; reflexivity|].
  refine (proj1 (X11_query_without_argument _ []) _ eq_refl).
  discriminate.
Defined.

Lemma leb_nan_r (d : float) : PrimFloat.leb d nan = false.
Proof.
  rewrite leb_spec. unfold SFleb, SFcompare.
  replace (Prim2SF nan) with S754_nan by reflexivity.
  by destruct (Prim2SF d).
Qed.

Lemma leb_nan_l (d : float) : PrimFloat.leb nan d = false.
Proof.
  rewrite leb_spec. unfold SFleb, SFcompare.
  by replace (Prim2SF nan) with S754_nan by reflexivity.
Qed.

(** X12: an approach of an object whose diameter is unknown, the
    not-a-number that [NearEarthObject.__init__] makes of an empty diameter,
    is yielded by no query that gives [diameter_min] or [diameter_max],
    whatever the bound. *)
Theorem X12_unknown_diameter_meets_no_bound
    (db : NEODatabase) (i : nat) (a : CloseApproach) (j : nat)
    (n : NearEarthObject)
    (date start_date end_date : option datetime.date)
    (distance_min distance_max velocity_min velocity_max
     diameter_min diameter_max : option float)
    (hazardous : option bool) :
  _approaches db !! i = Some a -> neo a = Some j ->
  _neos db !! j = Some n -> diameter n = nan ->
  diameter_min <> None \/ diameter_max <> None ->
  i ∉ yielded (query db (create_filters date start_date end_date
                           distance_min distance_max velocity_min
                           velocity_max diameter_min diameter_max
                           hazardous)).
Proof.
  intros Hi Hj Hn Hnan Hgiven (k & a' & E & Hk & Hfits)%query_from_elem.
  simpl in E. subst k. rewrite Hi in Hk. injection Hk as <-.
  rewrite (fits_linked _ _ _ _ _ _ _ _ _ _ _ _ _ _ Hj Hn) in Hfits.
  injection Hfits as [Hm _]%andb_true_iff.
  unfold neo_matches in Hm. rewrite Hnan in Hm.
  apply andb_true_iff in Hm as [_ [Hmax Hmin]%andb_true_iff].
  destruct Hgiven as [Hg | Hg].
  - destruct diameter_min as [d|]; [|done]. simpl in Hmin.
    by rewrite leb_nan_r in Hmin.
  - destruct diameter_max as [d|]; [|done]. simpl in Hmax.
    by rewrite leb_nan_l in Hmax.
Qed.

Lemma X12_unknown_diameter_meets_no_bound_witness :
  exists db,
    NEODatabase__init__ [plain_neo "2020 AB"] [plain_cad "2020 AB"] = Ok db /\
    0 ∉ yielded (query db (create_filters None None None None None None None
                             (Some 0%float) None None)).
Proof.
  eexists. split; [vm_compute; reflexivity|].
  refine (X12_unknown_diameter_meets_no_bound _ 0
            (set_neo 0 (plain_cad "2020 AB")) 0
            (approaches_extend [0] (plain_neo "2020 AB"))
            None None None None None None None (Some 0%float) None None
            _ _ _ _ _); try reflexivity.
  left. discriminate.
Defined.

(** ** The [fullname] properties *)

(** X13: in a database made from approaches that had no [neo], [fullname] of
    an approach raises nothing; it is the empty string for an approach that
    was left unlinked and otherwise the name alone of the linked object,
    [None] when the object has no name: the designation is not part of
    it. *)
Theorem X13_CloseApproach_fullname
    (neos : list NearEarthObject) (cads : list CloseApproach)
    (db : NEODatabase) (i : nat) (c : CloseApproach) :
  NEODatabase__init__ neos cads = Ok db ->
  Forall (fun c => neo c = None) cads ->
  _approaches db !! i = Some c ->
  (neo c = None /\ CloseApproach_fullname (_neos db) c = Ok (Some "")) \/
  (exists j n, neo c = Some j /\ _neos db !! j = Some n /\
               CloseApproach_fullname (_neos db) c = Ok (name n)).
Proof.
  intros Hinit Hnone Hi. unfold CloseApproach_fullname, approach_neo.
  destruct (neo c) as [j|] eqn:Hj; [right | by left].
  unfold NEODatabase__init__ in Hinit.
  apply bind_Ok in Hinit as (trie & _ & H).
  apply add_neos_back_linked in H; [| simpl; lia |].
  - destruct (H i c j Hi Hj) as (n & Hn & _).
    exists j, n. rewrite Hn. by repeat split.
  - simpl. intros i' c' j' Hi' Hj'.
    apply list_elem_of_lookup_2 in Hi'.
    rewrite Forall_forall in Hnone. rewrite (Hnone _ Hi') in Hj'. done.
Qed.

Lemma X13_CloseApproach_fullname_witness :
  exists db c,
    NEODatabase__init__ [eros] [plain_cad "433"] = Ok db /\
    _approaches db !! 0 = Some c /\
    CloseApproach_fullname (_neos db) c = Ok (Some "Eros").
Proof.
  eexists.
  assert (Hinit : NEODatabase__init__ [eros] [plain_cad "433"] = Ok ?[db])
    by (vm_compute; reflexivity).
  exists (set_neo 0 (plain_cad "433")). split; [exact Hinit|].
  split; [reflexivity|].
  destruct (X13_CloseApproach_fullname _ _ _ 0 (set_neo 0 (plain_cad "433"))
              Hinit ltac:(repeat constructor) eq_refl)
    as [[Hn _] | (j & n & Hj & Hn & Hf)]; [discriminate|].
  injection Hj as <-. injection Hn as <-. exact Hf.
Defined.

(** X14: [fullname] of an object made by [NearEarthObject.__init__] is its
    designation, a space and its name; for an object made with no name, or
    with the empty name, it raises [TypeError]. *)
Theorem X14_NearEarthObject_fullname
    (float_of_str : string -> result float)
    (d : string) (nm : option string) (dia h : string)
    (n : NearEarthObject) :
  NearEarthObject__init__ float_of_str d nm dia h = Ok n ->
  NearEarthObject_fullname n
  = match nm with
    | Some s => if String.eqb s "" then Raise TypeError
                else Ok (d +:+ " " +:+ s)
    | None => Raise TypeError
    end.
Proof.
  unfold NearEarthObject__init__. intros H.
  apply bind_Ok in H as (dia' & _ & H). injection H as <-.
  unfold NearEarthObject_fullname. simpl.
  destruct nm as [s|]; simpl; [|done]. by destruct (String.eqb s "").
Qed.

Lemma X14_NearEarthObject_fullname_witness :
  NearEarthObject_fullname (plain_neo "2020 AB") = Raise TypeError.
Proof.
  exact (X14_NearEarthObject_fullname (fun _ => Ok nan) "2020 AB" (Some "")
           "" "" (plain_neo "2020 AB") eq_refl).
Defined.

(** ** The two writers *)

Section Writers.

Variable datetime_to_str : datetime.datetime -> string.
Variable heap : list NearEarthObject.

Lemma approach_neo_cases (a : CloseApproach) :
  (exists n, approach_neo heap a = OfNeo n) \/ approach_neo heap a = OfNone.
Proof.
  unfold approach_neo. destruct (neo a) as [j|]; [|by right].
  destruct (heap !! j); eauto.
Qed.

Lemma write_rows_linked ending results :
  Forall (fun c => exists n, approach_neo heap c = OfNeo n) results ->
  exists rows,
    write.write_rows heap results ending = mkstream rows ending /\
    Forall2 (fun c row => write.text_of heap c = Ok row) results rows.
Proof.
  induction 1 as [|c rest [n Hn] _ (rows & Hrows & Hall)]; simpl.
  - exists []. by split.
  - unfold write.text_of at 1. rewrite Hn, Hrows. simpl.
    eexists. split; [done|]. constructor; [|done].
    unfold write.text_of. by rewrite Hn.
Qed.

Lemma write_rows_stop ending pre cae post :
  Forall (fun c => exists n, approach_neo heap c = OfNeo n) pre ->
  approach_neo heap cae = OfNone ->
  exists rows,
    write.write_rows heap (pre ++ cae :: post) ending
    = mkstream rows (Some AttributeError) /\
    Forall2 (fun c row => write.text_of heap c = Ok row) pre rows.
Proof.
  intros Hpre Hcae.
  induction Hpre as [|c rest [n Hn] _ (rows & Hrows & Hall)]; simpl.
  - unfold write.text_of. rewrite Hcae. exists []. by split.
  - unfold write.text_of at 1. rewrite Hn, Hrows. simpl.
    eexists. split; [done|]. constructor; [|done].
    unfold write.text_of. by rewrite Hn.
Qed.

Lemma cae_list_of_Ok results : forall l,
  write.cae_list_of datetime_to_str heap results = Ok l ->
  Forall2 (fun cae d =>
             exists n, approach_neo heap cae = OfNeo n /\
                       write.cae_dict_of datetime_to_str heap cae = Ok d)
    results l.
Proof.
  induction results as [|cae rest IH]; intros l H; simpl in H.
  - injection H as <-. constructor.
  - apply bind_Ok in H as (d & Hd & H).
    apply bind_Ok in H as (l' & Hl' & H). injection H as <-.
    constructor; [|by apply IH].
    destruct (approach_neo_cases cae) as [[n Hn] | Hnone]; [eauto|].
    unfold write.cae_dict_of in Hd. by rewrite Hnone in Hd.
Qed.

Lemma cae_list_of_Raise results e :
  write.cae_list_of datetime_to_str heap results = Raise e ->
  e = AttributeError /\
  exists cae, cae ∈ results /\ approach_neo heap cae = OfNone.
Proof.
  induction results as [|cae rest IH]; simpl; [done|].
  unfold write.cae_dict_of at 1.
  destruct (approach_neo_cases cae) as [[n Hn] | Hnone].
  - rewrite Hn. simpl.
    destruct (write.cae_list_of _ _ rest) as [l|e'] eqn:E; simpl; [done|].
    intros [= <-]. destruct (IH eq_refl) as (-> & cae' & Hin & Hc).
    split; [done|]. exists cae'. split; [|done]. apply elem_of_cons.
    by right.
  - rewrite Hnone. simpl. intros [= <-]. split; [done|].
    exists cae. split; [|done]. apply elem_of_cons. by left.
Qed.

End Writers.

Lemma write_to_json_spec
    (datetime_to_str : datetime.datetime -> string)
    (heap : list NearEarthObject) (results : stream CloseApproach) :
  match write.write_to_json datetime_to_str heap results with
  | Ok cae_list =>
      raised results = None /\
      Forall2 (fun cae d =>
                 exists n,
                   approach_neo heap cae = OfNeo n /\
                   d = write.mkcae_dict (datetime_to_str (time cae))
                         (distance cae) (velocity cae)
                         (write.mkneo_dict (designation n) (name n)
                            (diameter n) (hazardous n)))
        (yielded results) cae_list
  | Raise e =>
      (e = AttributeError /\
       exists cae, cae ∈ yielded results /\ approach_neo heap cae = OfNone)
      \/ raised results = Some e
  end.
Proof.
  unfold write.write_to_json.
  destruct (write.cae_list_of _ _ _) as [l|e] eqn:E; simpl.
  - destruct (raised results) as [e|]; [by right|]. split; [done|].
    apply cae_list_of_Ok in E. eapply Forall2_impl; [exact E|].
    intros cae d (n & Hn & Hd). exists n. split; [done|].
    unfold write.cae_dict_of in Hd. rewrite Hn in Hd. by injection Hd.
  - left. by eapply cae_list_of_Raise.
Qed.

(** X15: [write_to_json] writes all or nothing: either the iterable ends
    without exception and every result is linked, and the file holds one
    dictionary for each result, in order; or the call raises, for a result
    whose [neo] is [None] or with the exception that ends the iterable, and
    no file is written. *)
Theorem X15_write_to_json_all_or_nothing
    (datetime_to_str : datetime.datetime -> string)
    (heap : list NearEarthObject) (results : stream CloseApproach) :
  match write.write_to_json datetime_to_str heap results with
  | Ok cae_list =>
      raised results = None /\
      Forall2 (fun cae d =>
                 exists n,
                   approach_neo heap cae = OfNeo n /\
                   d = write.mkcae_dict (datetime_to_str (time cae))
                         (distance cae) (velocity cae)
                         (write.mkneo_dict (designation n) (name n)
                            (diameter n) (hazardous n)))
        (yielded results) cae_list
  | Raise e =>
      (e = AttributeError /\
       exists cae, cae ∈ yielded results /\ approach_neo heap cae = OfNone)
      \/ raised results = Some e
  end.
Proof. apply write_to_json_spec. Qed.

(** X16: [write_to_csv] writes the header first, then one row for each
    result, in order; it stops at the first result whose [neo] is [None]
    with [AttributeError], the header and the rows of the results before it
    being written; when every result is linked it writes a row for each and
    ends as the iterable ends. *)
Theorem X16_write_to_csv_rows
    (heap : list NearEarthObject) (results : stream CloseApproach) :
  (forall pre cae post,
      yielded results = pre ++ cae :: post ->
      Forall (fun c => exists n, approach_neo heap c = OfNeo n) pre ->
      approach_neo heap cae = OfNone ->
      exists rows,
        write.write_to_csv heap results
        = mkstream (write.fieldnames :: rows) (Some AttributeError) /\
        Forall2 (fun c row => write.text_of heap c = Ok row) pre rows) /\
  (Forall (fun c => exists n, approach_neo heap c = OfNeo n)
     (yielded results) ->
   exists rows,
     write.write_to_csv heap results
     = mkstream (write.fieldnames :: rows) (raised results) /\
     Forall2 (fun c row => write.text_of heap c = Ok row)
       (yielded results) rows).
Proof.
  unfold write.write_to_csv. split.
  - intros pre cae post -> Hpre Hcae.
    destruct (write_rows_stop heap (raised results) pre cae post Hpre Hcae)
      as (rows & -> & Hall). eauto.
  - intros Hall.
    destruct (write_rows_linked heap (raised results) _ Hall)
      as (rows & -> & Hrows). eauto.
Qed.

Lemma X16_write_to_csv_rows_witness :
  exists rows,
    write.write_to_csv [eros]
      (mkstream [set_neo 0 (plain_cad "433"); plain_cad "2020 AB"] None)
    = mkstream (write.fieldnames :: rows) (Some AttributeError) /\
    length rows = 1.
Proof.
  destruct (proj1 (X16_write_to_csv_rows [eros]
              (mkstream [set_neo 0 (plain_cad "433"); plain_cad "2020 AB"]
                 None))
              [set_neo 0 (plain_cad "433")] (plain_cad "2020 AB") []
              eq_refl ltac:(repeat constructor; by exists eros) eq_refl)
    as (rows & Hw & Hall).
  exists rows. split; [exact Hw|]. by rewrite <- (Forall2_length _ _ _ Hall).
Defined.

(** X17: when [write_to_json] writes its file, [write_to_csv] of the same
    results ends without exception, and after the header its rows carry, one
    for one and in the same order, the values of the dictionaries of the JSON
    file, with the time of the approach where the dictionary has its text. *)
Theorem X17_csv_and_json_agree
    (datetime_to_str : datetime.datetime -> string)
    (heap : list NearEarthObject) (results : stream CloseApproach)
    (cae_list : list write.cae_dict) :
  write.write_to_json datetime_to_str heap results = Ok cae_list ->
  exists rows,
    write.write_to_csv heap results
    = mkstream (write.fieldnames :: rows) None /\
    Forall2 (fun row cd =>
               exists t, write.datetime_utc (snd cd) = datetime_to_str t /\
                         time (fst cd) = t /\
                         row = row_of_dict t (snd cd))
      rows (zip (yielded results) cae_list).
Proof.
  intros H.
  pose proof (write_to_json_spec datetime_to_str heap results) as Hjson.
  rewrite H in Hjson. destruct Hjson as [Hr Hall].
  unfold write.write_to_csv. rewrite Hr. clear H Hr.
  induction Hall as [|cae d rest l (n & Hn & ->) _ (rows & Hrows & IH)];
    simpl.
  - exists []. split; [done|]. constructor.
  - unfold write.text_of. rewrite Hn.
    destruct (write.write_rows heap rest None) as [rs r] eqn:E.
    simpl in *. injection Hrows as <- ->.
    eexists. split; [done|]. constructor; [|done].
    exists (time cae). by repeat split.
Qed.

Lemma X17_csv_and_json_agree_witness :
  exists rows,
    write.write_to_csv [eros]
      (mkstream [set_neo 0 (plain_cad "433")] None)
    = mkstream (write.fieldnames :: rows) None.
Proof.
  destruct (X17_csv_and_json_agree (fun _ => "2020-01-01 00:00") [eros]
              (mkstream [set_neo 0 (plain_cad "433")] None) _ eq_refl)
    as (rows & Hw & _).
  by exists rows.
Defined.

(** ** Further properties of [limit] *)

Lemma limit_in_range {A : Type} (iterator : stream A) (n : Z) :
  (0 < n)%Z -> (n <= sys_maxsize)%Z ->
  limit iterator (Some n)
  = Ok (if Z.to_nat n <=? length (yielded iterator)
        then mkstream (take (Z.to_nat n) (yielded iterator)) None
        else iterator).
Proof.
  intros Hpos Hmax. unfold limit, islice.
  destruct (Z.eqb_spec n 0) as [->|_]; [lia|].
  destruct (Z.leb_spec 0 n); [|lia].
  destruct (Z.leb_spec n sys_maxsize); [|lia]. cbn [andb].
  by destruct (Z.to_nat n <=? length (yielded iterator)).
Qed.

(** X18: limiting twice is limiting once to the smaller bound. *)
Theorem X18_limit_twice
    {A : Type} (iterator : stream A) (n m : Z) :
  (0 < n)%Z -> (n <= sys_maxsize)%Z -> (0 < m)%Z -> (m <= sys_maxsize)%Z ->
  (s <- limit iterator (Some n); limit s (Some m))
  = limit iterator (Some (Z.min n m)).
Proof.
  intros Hn Hn' Hm Hm'.
  rewrite (limit_in_range iterator n), (limit_in_range iterator (Z.min n m))
    by lia.
  cbn [bind].
  destruct (Nat.leb_spec (Z.to_nat n) (length (yielded iterator)))
    as [Hle|Hgt].
  - rewrite limit_in_range by lia. cbn [yielded].
    rewrite length_take, take_take.
    destruct (Nat.leb_spec (Z.to_nat m)
                (Z.to_nat n `min` length (yielded iterator))) as [H1|H1];
      destruct (Nat.leb_spec (Z.to_nat (Z.min n m))
                  (length (yielded iterator))) as [H2|H2]; try lia.
    + do 3 f_equal. lia.
    + do 3 f_equal. lia.
  - rewrite limit_in_range by lia.
    destruct (Nat.leb_spec (Z.to_nat m) (length (yielded iterator)))
      as [H1|H1];
      destruct (Nat.leb_spec (Z.to_nat (Z.min n m))
                  (length (yielded iterator))) as [H2|H2]; try lia.
    + do 3 f_equal. lia.
    + done.
Qed.

Lemma X18_limit_twice_witness :
  (s <- limit (mkstream [1; 2; 3; 4; 5] None) (Some 4%Z);
   limit s (Some 2%Z))
  = Ok (mkstream [1; 2] None).
Proof.
  assert (H1 : (0 < 4)%Z) by reflexivity.
  assert (H2 : (4 <= sys_maxsize)%Z) by (vm_compute; discriminate).
  assert (H3 : (0 < 2)%Z) by reflexivity.
  assert (H4 : (2 <= sys_maxsize)%Z) by (vm_compute; discriminate).
  exact (X18_limit_twice (mkstream [1; 2; 3; 4; 5] None) 4 2 H1 H2 H3 H4).
Defined.

(** X19: [limit] asks the iterator for no more than [n] values: when the
    iterator yields at least [n] values before it raises, the limited
    stream raises nothing; a negative [n] raises [ValueError]. *)
Theorem X19_limit_stops_asking
    {A : Type} (iterator : stream A) (n : Z) :
  ((0 < n)%Z -> (n <= sys_maxsize)%Z ->
   Z.to_nat n <= length (yielded iterator) ->
   limit iterator (Some n)
   = Ok (mkstream (take (Z.to_nat n) (yielded iterator)) None)) /\
  ((n < 0)%Z -> limit iterator (Some n) = Raise ValueError).
Proof.
  split.
  - intros Hpos Hmax Hlen. rewrite limit_in_range by done.
    by destruct (Nat.leb_spec (Z.to_nat n) (length (yielded iterator)));
      [|lia].
  - intros Hneg. unfold limit, islice.
    destruct (Z.eqb_spec n 0) as [->|_]; [lia|].
    by destruct (Z.leb_spec 0 n); [lia|].
Qed.

Lemma X19_limit_stops_asking_witness :
  limit (mkstream [1; 2; 3] (Some AttributeError)) (Some 2%Z)
  = Ok (mkstream [1; 2] None).
Proof.
  assert (H1 : (0 < 2)%Z) by reflexivity.
  assert (H2 : (2 <= sys_maxsize)%Z) by (vm_compute; discriminate).
  assert (H3 : Z.to_nat 2 <= 3) by (vm_compute; lia).
  exact (proj1 (X19_limit_stops_asking
                  (mkstream [1; 2; 3] (Some AttributeError)) 2) H1 H2 H3).
Defined.

(** ** What a lookup by designation can return *)

Section Lookup.

Lemma neo_trie_add_find des : forall j node node',
  neo_trie_add des j node = Ok node' ->
  trie_find des node' = Some (NeoRef j).
Proof.
  induction des as [|ch des IH]; intros j node node' H; simpl in H.
  - destruct node as [items|l|r]; simpl in H; try discriminate.
    injection H as <-. simpl. apply dict_get_set_eq.
  - apply descend_inv in H
      as (items & items' & child' & -> & -> & Hk & Hget & _).
    simpl. rewrite Hget. by eapply IH.
Qed.

Lemma neo_trie_add_find_other des : forall des2 j node node',
  dollar_free des = true -> dollar_free des2 = true -> des <> des2 ->
  neo_trie_add des2 j node = Ok node' ->
  trie_find des node' = trie_find des node.
Proof.
  induction des as [|ch des IH]; intros des2 j node node' Hd Hd2 Hne Ha.
  - destruct des2 as [|ch2 des2]; [done|].
    apply dollar_free_cons in Hd2 as [Hch2 _]. simpl in Ha.
    apply descend_inv in Ha
      as (items & items' & child' & -> & -> & _ & _ & Hother).
    simpl. apply Hother. intros E. by apply Hch2.
  - apply dollar_free_cons in Hd as [Hch Hd].
    destruct des2 as [|ch2 des2].
    + destruct node as [items|l|r]; simpl in Ha; try discriminate.
      injection Ha as <-. simpl. by rewrite dict_get_set_ne.
    + apply dollar_free_cons in Hd2 as [_ Hd2]. simpl in Ha.
      apply descend_inv in Ha
        as (items & items' & child' & -> & -> & Hk & Hnew & Hother).
      simpl. destruct (decide (ch = ch2)) as [<-|Hch2].
      * rewrite Hnew. assert (Hne' : des <> des2) by congruence.
        rewrite (IH _ _ _ _ Hd Hd2 Hne' Hk).
        destruct (dict_get ch items); simpl; [done|].
        apply trie_find_empty.
      * by rewrite Hother.
Qed.

Lemma add_neos_filed_under neos todo : forall j self db,
  add_neos todo j self = Ok db ->
  (forall k, todo !! k = neos !! (j + k)) ->
  Forall (fun n => dollar_free (designation n) = true) todo ->
  wf_trie is_NeoRef (neo_trie self) = true ->
  filed_under neos (neo_trie self) ->
  wf_trie is_NeoRef (neo_trie db) = true /\ filed_under neos (neo_trie db).
Proof.
  induction todo as [|neo rest IH]; intros j self db H Hal Hfree Hwf Hinv;
    simpl in H.
  - injection H as <-. by split.
  - apply bind_Ok in H as (self' & Hstep & H).
    apply add_neo_inv in Hstep as (linked & trie & Htrie & -> & _).
    apply Forall_cons in Hfree as [Hneo Hfree].
    apply (IH _ _ _ H); simpl.
    + intros k. specialize (Hal (S k)). simpl in Hal.
      rewrite Hal. f_equal. lia.
    + done.
    + destruct (neo_trie_add_total _ j _ Hwf Hneo) as (t & Ht & Hwft).
      rewrite Htrie in Ht. by injection Ht as ->.
    + intros p j' Hp Hfind.
      destruct (decide (p = designation neo)) as [->|Hne].
      * rewrite (neo_trie_add_find _ _ _ _ Htrie) in Hfind.
        injection Hfind as <-. exists neo. split; [|done].
        specialize (Hal 0). rewrite Nat.add_0_r in Hal. by rewrite <- Hal.
      * rewrite (neo_trie_add_find_other _ _ _ _ _ Hp Hneo Hne Htrie)
          in Hfind.
        by apply Hinv.
Qed.

(** The walk takes some of the characters of the query, in their order, and
    stops where exactly these lead. *)
Lemma trie_walk_find leaf s : forall node items,
  wf_trie leaf node = true -> dollar_free s = true ->
  trie_walk s node = Ok (Dict items) ->
  exists p,
    sublist (list_ascii_of_string p) (list_ascii_of_string s) /\
    dollar_free p = true /\
    trie_find p node = dict_get dollar items.
Proof.
  induction s as [|ch s IH]; intros node items Hwf Hs Hwalk.
  - simpl in Hwalk. injection Hwalk as ->. exists "". by repeat split.
  - apply dollar_free_cons in Hs as [Hch Hs].
    destruct (wf_trie_Dict _ _ Hwf) as [items0 ->]. simpl in Hwalk.
    destruct (dict_get ch items0) as [child|] eqn:Hget; simpl in Hwalk.
    + pose proof (wf_trie_get _ _ _ _ Hwf Hget) as Hchild.
      rewrite (proj2 (Ascii.eqb_neq ch dollar)) in Hchild by done.
      destruct (IH _ _ Hchild Hs Hwalk) as (p & Hsub & Hp & Hfind).
      exists (String ch p). simpl. split; [by apply sublist_skip|].
      split; [|by rewrite Hget].
      by rewrite (proj2 (Ascii.eqb_neq ch dollar)).
    + destruct (IH _ _ Hwf Hs Hwalk) as (p & Hsub & Hp & Hfind).
      exists p. split; [by apply sublist_cons | by split].
Qed.

End Lookup.

(** X20: when neither the designations of the collection nor the query
    contain ['$'], [get_neo_by_designation] raises nothing, and what it
    returns is [None] or an object of the collection whose designation is
    made of characters of the query, in the order of the query. *)
Theorem X20_lookup_returns_a_subsequence
    (neos : list NearEarthObject) (cads : list CloseApproach)
    (db : NEODatabase) (s : string) :
  NEODatabase__init__ neos cads = Ok db ->
  Forall (fun n => dollar_free (designation n) = true) neos ->
  dollar_free s = true ->
  get_neo_by_designation db s = Ok None \/
  exists j n,
    get_neo_by_designation db s = Ok (Some (NeoRef j)) /\
    neos !! j = Some n /\
    sublist (list_ascii_of_string (designation n)) (list_ascii_of_string s).
Proof.
  intros Hinit Hfree Hs. unfold NEODatabase__init__ in Hinit.
  apply bind_Ok in Hinit as (trie & _ & H).
  assert (Hstart : filed_under neos (Dict [])).
  { intros p j _ Hfind. by rewrite trie_find_empty in Hfind. }
  apply (add_neos_filed_under neos) in H as [Hwf Hinv]; simpl; try done.
  unfold get_neo_by_designation.
  destruct (trie_walk_total _ _ _ Hwf Hs) as (items & Hwalk & Hitems).
  rewrite Hwalk. simpl.
  destruct (trie_walk_find _ _ _ _ Hwf Hs Hwalk) as (p & Hsub & Hp & Hfind).
  destruct (dict_get dollar items) as [entry|] eqn:Hget; simpl; [|by left].
  pose proof (wf_trie_get _ _ _ _ Hitems Hget) as Hleaf. simpl in Hleaf.
  destruct entry as [|l|j]; try done. right.
  destruct (Hinv p j Hp Hfind) as (n & Hn & <-). eauto.
Qed.

Lemma X20_lookup_returns_a_subsequence_witness :
  exists db,
    NEODatabase__init__ [plain_neo "433"] [] = Ok db /\
    (get_neo_by_designation db "4x3y3" = Ok None \/
     exists j n,
       get_neo_by_designation db "4x3y3" = Ok (Some (NeoRef j)) /\
       [plain_neo "433"] !! j = Some n /\
       sublist (list_ascii_of_string (designation n))
         (list_ascii_of_string "4x3y3")).
Proof.
  eexists. split; [vm_compute; reflexivity|].
  exact (X20_lookup_returns_a_subsequence [plain_neo "433"] [] _ "4x3y3"
           eq_refl ltac:(repeat constructor) eq_refl).
Defined.

(** ** Construction and query together *)

(** X21: when every approach of the collection bears the designation of an
    object of the collection, no designation of an approach containing
    ['$'], construction links every approach to an object of the database,
    and no query made with [create_filters] raises. *)
Theorem X21_matched_collections_query_safely
    (neos : list NearEarthObject) (cads : list CloseApproach)
    (db : NEODatabase)
    (date start_date end_date : option datetime.date)
    (distance_min distance_max velocity_min velocity_max
     diameter_min diameter_max : option float)
    (hazardous : option bool) :
  NEODatabase__init__ neos cads = Ok db ->
  Forall (fun c => dollar_free (_designation c) = true) cads ->
  Forall (fun c => exists n, n ∈ neos /\ designation n = _designation c)
    cads ->
  (forall a, a ∈ _approaches db ->
             exists j n, neo a = Some j /\ _neos db !! j = Some n) /\
  raised (query db (create_filters date start_date end_date distance_min
                      distance_max velocity_min velocity_max diameter_min
                      diameter_max hazardous)) = None.
Proof.
  intros Hinit Hfree Hmatch.
  assert (Hlinked : forall a, a ∈ _approaches db ->
            exists j n, neo a = Some j /\ _neos db !! j = Some n).
  { destruct (init_same _ _ _ Hinit) as (Hn & Hc & _).
    unfold NEODatabase__init__ in Hinit.
    apply bind_Ok in Hinit as (trie & Htrie & H).
    destruct (add_neos_cads _ _ _ _ H) as (_ & Hset). simpl in Hset.
    intros a (i & Hi)%list_elem_of_lookup_1.
    destruct (Forall2_lookup_l _ _ _ _ _ Hc Hi) as (c & Hci & _).
    rewrite Forall_forall in Hmatch, Hfree.
    pose proof (list_elem_of_lookup_2 _ _ _ Hci) as Hcin.
    destruct (Hmatch c Hcin) as (n & (j & Hj)%list_elem_of_lookup_1 & Hd).
    assert (Hmem : i ∈ matching_refs (designation n) cads 0)
      by (apply elem_of_matching_refs; exists i, c; by repeat split).
    assert (Hne : matching_refs (designation n) cads 0 <> []).
    { intros E. rewrite E in Hmem. by apply elem_of_nil in Hmem. }
    assert (Hdn : dollar_free (designation n) = true)
      by (rewrite Hd; by apply Hfree).
    rewrite <- (found_cads_matching _ _ _ Htrie Hdn
                  (proj2 (Forall_forall _ _) Hfree) Hne) in Hmem.
    destruct (Hset j n i c Hj Hmem Hci) as (j' & Hj' & E).
    rewrite Hi in E. injection E as ->. exists j'. simpl.
    assert (Hlt : j' < length (_neos db)).
    { rewrite (Forall2_length _ _ _ Hn). simpl in Hj'. lia. }
    destruct (lookup_lt_is_Some_2 _ _ Hlt) as [n' Hn']. eauto. }
  split; [exact Hlinked|].
  by apply query_linked_spec.
Qed.

Lemma X21_matched_collections_query_safely_witness :
  exists db,
    NEODatabase__init__ [eros; plain_neo "2020 AB"]
      [plain_cad "2020 AB"; plain_cad "433"] = Ok db /\
    raised (query db (create_filters None None None None None None None
                        None None (Some true))) = None.
Proof.
  eexists. split; [vm_compute; reflexivity|].
  refine (proj2 (X21_matched_collections_query_safely
                   [eros; plain_neo "2020 AB"]
                   [plain_cad "2020 AB"; plain_cad "433"] _
                   None None None None None None None None None (Some true)
                   eq_refl _ _)).
  - repeat constructor.
  - repeat constructor.
    + exists (plain_neo "2020 AB"). split; [|done].
      apply elem_of_cons. right. apply elem_of_cons. by left.
    + exists eros. split; [|done]. apply elem_of_cons. by left.
Defined.

(** ** What an object can receive *)

Lemma add_cads_wf cads trie :
  add_cads cads 0 (Dict []) = Ok trie ->
  Forall (fun c => dollar_free (_designation c) = true) cads ->
  wf_trie is_CadList trie = true.
Proof.
  intros Hadd Hfree.
  destruct (add_cads_total cads 0 (Dict []) eq_refl Hfree)
    as (trie' & Hadd' & Hwf).
  rewrite Hadd in Hadd'. by injection Hadd' as ->.
Qed.

(** X22: when no designation of an approach contains ['$'], the approaches
    that construction appends to an object whose designation is free of
    ['$'] are exactly the approaches bearing one designation [p], in the
    order of the collection, and [p] is made of characters of the
    designation of the object, in their order: its own designation or what
    is left of it once the walk has skipped the characters the trie does not
    have. *)
Theorem X22_linked_approaches_share_a_subsequence
    (neos : list NearEarthObject) (cads : list CloseApproach)
    (db : NEODatabase) (j : nat) (n : NearEarthObject) :
  NEODatabase__init__ neos cads = Ok db ->
  Forall (fun c => dollar_free (_designation c) = true) cads ->
  neos !! j = Some n ->
  dollar_free (designation n) = true ->
  exists p n',
    sublist (list_ascii_of_string p) (list_ascii_of_string (designation n)) /\
    _neos db !! j = Some n' /\
    approaches n' = approaches n ++ matching_refs p cads 0.
Proof.
  intros Hinit Hfree Hj Hdes. unfold NEODatabase__init__ in Hinit.
  apply bind_Ok in Hinit as (trie & Htrie & H).
  destruct (add_neos_stores _ _ _ _ H) as (_ & _ & _ & Hin).
  specialize (Hin j n Hj). simpl in Hin. rewrite Hj in Hin. simpl in Hin.
  pose proof (add_cads_wf _ _ Htrie Hfree) as Hwf.
  destruct (trie_walk_total _ _ _ Hwf Hdes) as (items & Hwalk & Hitems).
  destruct (trie_walk_find _ _ _ _ Hwf Hdes Hwalk) as (p & Hsub & Hp & Hfind).
  pose proof (add_cads_find p _ _ _ _ Htrie Hp Hfree) as Hcontent.
  rewrite Hfind in Hcontent. unfold cads_at in Hcontent.
  rewrite trie_find_empty in Hcontent. simpl in Hcontent.
  exists p. eexists. split; [exact Hsub|]. split; [exact Hin|]. simpl.
  f_equal. unfold found_cads. rewrite Hwalk, Hcontent.
  by destruct (matching_refs p cads 0).
Qed.

Lemma X22_linked_approaches_share_a_subsequence_witness :
  exists db p n',
    NEODatabase__init__ [plain_neo "4330"]
      [plain_cad "433"; plain_cad "2020 AB"] = Ok db /\
    sublist (list_ascii_of_string p) (list_ascii_of_string "4330") /\
    _neos db !! 0 = Some n' /\
    approaches n'
    = matching_refs p [plain_cad "433"; plain_cad "2020 AB"] 0.
Proof.
  eexists.
  assert (Hinit : NEODatabase__init__ [plain_neo "4330"]
                    [plain_cad "433"; plain_cad "2020 AB"] = Ok ?[db])
    by (vm_compute; reflexivity).
  destruct (X22_linked_approaches_share_a_subsequence _ _ _ 0
              (plain_neo "4330") Hinit ltac:(repeat constructor)
              eq_refl eq_refl)
    as (p & n' & Hsub & Hn' & Happ).
  exists p, n'. by repeat split.
Defined.
